(** * Reference Automator (src/main.ts): record codec and section editing

    A shallow embedding of the parts of [src/main.ts] that read and write
    reference records in a Markdown note: the two catalogues
    [TYPE_OPTIONS] and [STATUS_ORDER], [starString], [buildLine],
    [insertLine], [replaceLine], the prefill parser of
    [ReferenceModal.onOpen], the submit handler, the star elements with
    [updateStarDisplay], [setupUrlTypeDetection], and the bodies of the
    [edit-reference], [delete-reference] and [cycle-ref-status] commands.

    JavaScript strings are sequences of UTF-16 code units, and every string
    operation of the source (regular expressions without the [u] flag,
    [split], [trim], [includes], ...) works on code units, so a string is a
    [list N] of code units here. *)

From Stdlib Require Import List NArith ZArith Bool Lia Arith.
From Stdlib Require Import Strings.Ascii.
From Stdlib Require Strings.String.
From Stdlib Require DecimalString.
Import ListNotations.
Import String.StringSyntax.

Set Implicit Arguments.

(* ================================================================= *)
(** ** JavaScript strings *)

Module JS.

Definition code := N.
Definition jsstring := list code.

(** Literals are written as UTF-8 text and converted to code units. *)

Fixpoint utf8_points (bs : list N) : list N :=
  match bs with
  | [] => []
  | b :: r =>
    if (b <? 128)%N then b :: utf8_points r
    else if (b <? 224)%N then
      match r with
      | b1 :: r1 => ((b mod 32) * 64 + b1 mod 64)%N :: utf8_points r1
      | _ => []
      end
    else if (b <? 240)%N then
      match r with
      | b1 :: b2 :: r2 =>
        ((b mod 16) * 4096 + (b1 mod 64) * 64 + b2 mod 64)%N :: utf8_points r2
      | _ => []
      end
    else
      match r with
      | b1 :: b2 :: b3 :: r3 =>
        ((b mod 8) * 262144 + (b1 mod 64) * 4096 + (b2 mod 64) * 64
         + b3 mod 64)%N :: utf8_points r3
      | _ => []
      end
  end.

Definition units_of_point (cp : N) : list code :=
  if (cp <? 65536)%N then [cp]
  else let v := (cp - 65536)%N in
       [(55296 + v / 1024)%N; (56320 + v mod 1024)%N].

Definition utf16 (s : String.string) : jsstring :=
  flat_map units_of_point
    (utf8_points (map N_of_ascii (String.list_ascii_of_string s))).

(** *** Code-unit classes *)

Definition chr (c : code) : code -> bool := N.eqb c.

(** WhiteSpace and LineTerminator code units: what [\s] matches and what
    [trim] strips. *)
Definition isSpace (c : code) : bool :=
  ((9 <=? c) && (c <=? 13) || (c =? 32) || (c =? 160) || (c =? 5760)
   || (8192 <=? c) && (c <=? 8202) || (c =? 8232) || (c =? 8233)
   || (c =? 8239) || (c =? 8287) || (c =? 12288) || (c =? 65279))%N.

Definition notSpace (c : code) : bool := negb (isSpace c).

(** What [.] matches: everything but a line terminator. *)
Definition dot (c : code) : bool :=
  negb ((c =? 10) || (c =? 13) || (c =? 8232) || (c =? 8233))%N.

Definition isnt (c : code) : code -> bool := fun d => negb (N.eqb c d).

Definition BAR : code := 124%N.     (* | *)
Definition STAR : code := 42%N.     (* * *)
Definition HASH : code := 35%N.     (* # *)
Definition NL : code := 10%N.       (* \n *)
Definition SLASH : code := 47%N.    (* / *)
Definition LBRACK : code := 91%N.   (* [ *)
Definition RBRACK : code := 93%N.   (* ] *)
Definition LPAR : code := 40%N.     (* ( *)
Definition RPAR : code := 41%N.     (* ) *)
Definition PERIOD : code := 46%N.   (* . *)
Definition DOLLAR : code := 36%N.   (* $ *)
Definition FILLED : code := 9733%N. (* U+2605, the filled star *)
Definition HOLLOW : code := 9734%N. (* U+2606, the empty star *)

(** *** String methods *)

Fixpoint eqb (a b : jsstring) : bool :=
  match a, b with
  | [], [] => true
  | x :: a', y :: b' => N.eqb x y && eqb a' b'
  | _, _ => false
  end.

(** [s.startsWith(p)] *)
Fixpoint startsWith (s p : jsstring) {struct p} : bool :=
  match p with
  | [] => true
  | x :: p' =>
    match s with
    | y :: s' => N.eqb x y && startsWith s' p'
    | [] => false
    end
  end.

(** [s.endsWith(p)] *)
Definition endsWith (s p : jsstring) : bool := startsWith (rev s) (rev p).

(** [s.includes(p)] *)
Fixpoint includes (s p : jsstring) : bool :=
  startsWith s p ||
  match s with
  | [] => false
  | _ :: s' => includes s' p
  end.

Fixpoint dropWhile (p : code -> bool) (s : jsstring) : jsstring :=
  match s with
  | c :: s' => if p c then dropWhile p s' else s
  | [] => []
  end.

(** [s.trim()] *)
Definition trim (s : jsstring) : jsstring :=
  rev (dropWhile isSpace (rev (dropWhile isSpace s))).

(** [s.split(sep)] for a separator of one code unit. *)
Fixpoint split (sep : code) (s : jsstring) : list jsstring :=
  match s with
  | [] => [[]]
  | c :: r =>
    if N.eqb c sep then [] :: split sep r
    else match split sep r with
         | w :: ws => (c :: w) :: ws
         | [] => [[c]]
         end
  end.

(** [ls.join(sep)] *)
Fixpoint join (sep : jsstring) (ls : list jsstring) : jsstring :=
  match ls with
  | [] => []
  | l :: r =>
    match r with
    | [] => l
    | _ :: _ => l ++ sep ++ join sep r
    end
  end.

(** Truthiness of a string: [""] is falsy. *)
Definition truthy (s : jsstring) : bool :=
  match s with [] => false | _ :: _ => true end.

(** *** Exceptions *)

Inductive exn : Type := RangeError | TypeError.

Inductive result (A : Type) : Type :=
| Ok (a : A)
| Throw (e : exn).
Arguments Ok {A} a.
Arguments Throw {A} e.

Definition bind {A B} (r : result A) (f : A -> result B) : result B :=
  match r with
  | Ok a => f a
  | Throw e => Throw e
  end.

Notation "x <- c ;; k" := (bind c (fun x => k))
  (at level 61, c at next level, right associativity).

(** [s.repeat(n)] for an integral count: a negative count raises
    RangeError. *)
Definition repeat (s : jsstring) (n : Z) : result jsstring :=
  if (n <? 0)%Z then Throw RangeError
  else Ok (List.concat (List.repeat s (Z.to_nat n))).

(** *** Arrays *)

Fixpoint find {A} (p : A -> bool) (l : list A) : option A :=
  match l with
  | [] => None
  | x :: r => if p x then Some x else find p r
  end.

(** [l.findIndex(p)], [-1] when no element satisfies [p]. *)
Fixpoint findIndexFrom {A} (p : A -> bool) (l : list A) (i : Z) : Z :=
  match l with
  | [] => (-1)%Z
  | x :: r => if p x then i else findIndexFrom p r (i + 1)%Z
  end.

Definition findIndex {A} (p : A -> bool) (l : list A) : Z :=
  findIndexFrom p l 0%Z.

(** [a || b] on values that may be undefined or a string. *)
Definition orElse (a : option jsstring) (b : jsstring) : jsstring :=
  match a with
  | Some s => if truthy s then s else b
  | None => b
  end.

End JS.

Import JS.
Local Open Scope string_scope.

(* ================================================================= *)
(** ** Regular expressions

    The patterns of the source are sequences of literal code units, classes
    and greedy or lazy quantifiers over one class, with capture groups, one
    optional group and the anchors [^] and [$].  The matcher is the
    backtracking matcher of the language: alternatives are tried in priority
    order (a greedy quantifier takes as much as it can first, a lazy one as
    little), and the first way through wins.  It is written in
    continuation-passing style. *)

Module Regex.

Inductive re : Type :=
| Eps
| Chr (p : code -> bool)                (* one code unit of a class *)
| Seq (a b : re)
| Star (greedy : bool) (p : code -> bool)  (* X* and X*? *)
| Plus (greedy : bool) (p : code -> bool)  (* X+ and X+? *)
| Group (i : nat) (a : re)              (* capture group number i *)
| Opt (a : re)                          (* (?:a)? *)
| Bol                                   (* ^ *)
| Eol.                                  (* $ *)

Definition cat (rs : list re) : re := fold_right Seq Eps rs.

(** The text before the current position (most recent code unit first), the
    text from it on, and the captures made so far. *)
Record mstate : Type := MState {
  before : jsstring;
  rest : jsstring;
  caps : list (nat * jsstring)
}.

Definition cont := mstate -> option mstate.

Fixpoint rep (greedy : bool) (p : code -> bool) (k : cont)
    (bf rs : jsstring) (cs : list (nat * jsstring)) {struct rs}
    : option mstate :=
  match rs with
  | c :: rs' =>
    if p c then
      if greedy then
        match rep greedy p k (c :: bf) rs' cs with
        | Some st => Some st
        | None => k (MState bf rs cs)
        end
      else
        match k (MState bf rs cs) with
        | Some st => Some st
        | None => rep greedy p k (c :: bf) rs' cs
        end
    else k (MState bf rs cs)
  | [] => k (MState bf rs cs)
  end.

Definition capture (i : nat) (st st' : mstate) : mstate :=
  let n := (List.length (before st') - List.length (before st))%nat in
  MState (before st') (rest st')
         ((i, rev (firstn n (before st'))) :: caps st').

Fixpoint m (r : re) (k : cont) (st : mstate) {struct r} : option mstate :=
  match r with
  | Eps => k st
  | Chr p =>
    match rest st with
    | c :: rs' => if p c then k (MState (c :: before st) rs' (caps st))
                  else None
    | [] => None
    end
  | Seq a b => m a (m b k) st
  | Star g p => rep g p k (before st) (rest st) (caps st)
  | Plus g p =>
    match rest st with
    | c :: rs' => if p c then rep g p k (c :: before st) rs' (caps st)
                  else None
    | [] => None
    end
  | Group i a => m a (fun st' => k (capture i st st')) st
  | Opt a =>
    match m a k st with
    | Some st' => Some st'
    | None => k st
    end
  | Bol => match before st with [] => k st | _ :: _ => None end
  | Eol => match rest st with [] => k st | _ :: _ => None end
  end.

(** The leftmost start position at which the pattern matches. *)
Fixpoint search (r : re) (bf rs : jsstring) {struct rs}
    : option (jsstring * mstate) :=
  match m r Some (MState bf rs []) with
  | Some st => Some (bf, st)
  | None =>
    match rs with
    | c :: rs' => search r (c :: bf) rs'
    | [] => None
    end
  end.

(** A match: the text before it, the matched text, the text after it and
    the captures. *)
Record found : Type := Found {
  prefix : jsstring;
  matched : jsstring;
  suffix : jsstring;
  groups : list (nat * jsstring)
}.

(** [r.exec(s)] for a pattern without flags. *)
Definition exec (r : re) (s : jsstring) : option found :=
  match search r [] s with
  | Some (bf, st) =>
    Some (Found (rev bf)
                (rev (firstn (List.length (before st) - List.length bf)
                             (before st)))
                (rest st) (caps st))
  | None => None
  end.

(** [r.test(s)] *)
Definition test (r : re) (s : jsstring) : bool :=
  match exec r s with Some _ => true | None => false end.

(** Capture [i] of a match, undefined when the group did not take part. *)
Fixpoint group (i : nat) (gs : list (nat * jsstring)) : option jsstring :=
  match gs with
  | [] => None
  | (j, s) :: gs' => if Nat.eqb i j then Some s else group i gs'
  end.

(** [s.replace(r, by)] for a pattern without the [g] flag and a replacement
    text free of [$] (see [replacement_plain] for the one replacement text
    that is computed). *)
Definition replace (s : jsstring) (r : re) (by_ : jsstring) : jsstring :=
  match exec r s with
  | Some f => prefix f ++ by_ ++ suffix f
  | None => s
  end.

(** [(s.match(/c/g) || []).length] for a pattern that is one literal code
    unit: the number of its occurrences. *)
Definition countMatches (c : code) (s : jsstring) : Z :=
  Z.of_nat (List.length (filter (N.eqb c) s)).

Definition lit (s : jsstring) : re := cat (map (fun c => Chr (chr c)) s).

End Regex.

Import Regex.

(** The patterns of the source. *)

(* /\|\s+\S+\s+\*\*.+?\*\*/ *)
Definition RE_STATUS_SPAN : re :=
  cat [Chr (chr BAR); Plus true isSpace; Plus true notSpace;
       Plus true isSpace; Chr (chr STAR); Chr (chr STAR);
       Plus false dot; Chr (chr STAR); Chr (chr STAR)].

(* /\[\[([^\]]+)(?:\|([^\]]+))?\]\]/ *)
Definition RE_INTERNAL_LINK : re :=
  cat [Chr (chr LBRACK); Chr (chr LBRACK);
       Group 1 (Plus true (isnt RBRACK));
       Opt (Seq (Chr (chr BAR)) (Group 2 (Plus true (isnt RBRACK))));
       Chr (chr RBRACK); Chr (chr RBRACK)].

(* /\[([^\]]+)\]\((.*?)\)/ *)
Definition RE_LINK : re :=
  cat [Chr (chr LBRACK); Group 1 (Plus true (isnt RBRACK));
       Chr (chr RBRACK); Chr (chr LPAR); Group 2 (Star false dot);
       Chr (chr RPAR)].

(* /^###\s*/ *)
Definition RE_HEADING_MARK : re :=
  cat [Bol; Chr (chr HASH); Chr (chr HASH); Chr (chr HASH);
       Star true isSpace].

(* /^(\S+)/ *)
Definition RE_LEADING_TOKEN : re :=
  cat [Bol; Group 1 (Plus true notSpace)].

(* /\*\*([^*]+)\*\*/ *)
Definition RE_BOLD : re :=
  cat [Chr (chr STAR); Chr (chr STAR); Group 1 (Plus true (isnt STAR));
       Chr (chr STAR); Chr (chr STAR)].

(* /## References/ *)
Definition RE_REFERENCES : re := lit (utf16 "## References").

(* /\.md$/ *)
Definition RE_MD_EXT : re := cat [lit (utf16 ".md"); Eol].

(* ================================================================= *)
(** ** The catalogues *)

Record info : Type := Info {
  key : jsstring;
  label : jsstring;
  icon : jsstring
}.

Definition TYPE_OPTIONS : list info := [
  Info (utf16 "plain-note") (utf16 "Obsidian Note") (utf16 "📄");
  Info (utf16 "web-page") (utf16 "Web Page") (utf16 "🌐");
  Info (utf16 "video") (utf16 "Video") (utf16 "🎥");
  Info (utf16 "course") (utf16 "Course") (utf16 "🎓");
  Info (utf16 "textbook") (utf16 "Textbook") (utf16 "📚");
  Info (utf16 "repository") (utf16 "Repository") (utf16 "💻");
  Info (utf16 "other") (utf16 "Other") (utf16 "📦")
].

Definition STATUS_ORDER : list info := [
  Info (utf16 "saved") (utf16 "Saved/Unprocessed") (utf16 "📥");
  Info (utf16 "skimmed") (utf16 "Skimmed") (utf16 "🔍");
  Info (utf16 "in-progress") (utf16 "In Progress") (utf16 "🔄");
  Info (utf16 "to-review") (utf16 "To Review") (utf16 "⏳");
  Info (utf16 "completed") (utf16 "Completed") (utf16 "✅");
  Info (utf16 "maybe-useful") (utf16 "Maybe Useful") (utf16 "🤔");
  Info (utf16 "needs-review") (utf16 "Needs Review") (utf16 "❗")
].

(** [A[0]] of a catalogue (both are non-empty constants). *)
Definition first (l : list info) : info := hd (Info [] [] []) l.

Definition getStatusInfo (k : jsstring) : info :=
  match find (fun s => eqb (key s) k) STATUS_ORDER with
  | Some s => s
  | None => first STATUS_ORDER
  end.

Definition getTypeInfo (k : jsstring) : info :=
  match find (fun t => eqb (key t) k) TYPE_OPTIONS with
  | Some t => t
  | None => first TYPE_OPTIONS
  end.

(* ================================================================= *)
(** ** Encoding: [starString] and [buildLine] *)

Record ReferenceData : Type := Data {
  type : jsstring;
  title : jsstring;
  url : jsstring;
  status : jsstring;
  stars : Z   (* 0-5 *)
}.

(** What [this.app.vault.getAbstractFileByPath] can answer: nothing, a
    folder, or a file with its base name. *)
Inductive abstractFile : Type :=
| TFile (basename : jsstring)
| TFolder.

Definition vault : Type := jsstring -> option abstractFile.

Definition starString (n : Z) : result jsstring :=
  if (n =? 0)%Z then Ok (utf16 "⚪ Not Rated")
  else
    filled <- JS.repeat [FILLED] n ;;
    hollow <- JS.repeat [HOLLOW] (5 - n) ;;
    Ok (filled ++ hollow).

Definition buildLine (v : vault) (data : ReferenceData) : result jsstring :=
  let typeInfo := getTypeInfo (type data) in
  let statusInfo := getStatusInfo (status data) in
  let link :=
    if eqb (type data) (utf16 "plain-note") && truthy (url data) then
      match v (url data) with
      | Some (TFile noteName) =>
        let linkPath := replace (url data) RE_MD_EXT [] in
        if eqb (trim (title data)) noteName
        then utf16 "[[" ++ linkPath ++ utf16 "]]"
        else utf16 "[[" ++ linkPath ++ utf16 "|" ++ title data ++ utf16 "]]"
      | _ =>
        utf16 "[" ++ title data ++ utf16 "](" ++ url data ++ utf16 ")"
      end
    else
      if truthy (url data)
      then utf16 "[" ++ title data ++ utf16 "](" ++ url data ++ utf16 ")"
      else title data in
  rating <- starString (stars data) ;;
  Ok (utf16 "### " ++ link ++ [NL]
      ++ icon typeInfo ++ utf16 " " ++ label typeInfo ++ utf16 " | "
      ++ icon statusInfo ++ utf16 " **" ++ label statusInfo ++ utf16 "**"
      ++ utf16 " | " ++ rating).

(* ================================================================= *)
(** ** Decoding: the prefill of [ReferenceModal.onOpen]

    The form holds what the record will be read from on submit: the two
    selects, the two text inputs and [currentRating]. *)

Record Form : Type := MkForm {
  typeSelect : jsstring;
  titleInput : jsstring;
  urlInput : jsstring;
  statusSelect : jsstring;
  currentRating : Z
}.

(** The form as built before the prefill: each select shows its first
    option, the inputs are empty, [currentRating] is 0. *)
Definition freshForm : Form :=
  MkForm (key (first TYPE_OPTIONS)) [] [] (key (first STATUS_ORDER)) 0.

(** A capture that takes part in every match of its pattern. *)
Definition cap (i : nat) (f : found) : jsstring :=
  match group i (groups f) with Some s => s | None => [] end.

Definition prefillTitleUrl (parts : list jsstring) (f : Form) : Form :=
  match parts with
  | firstPart :: _ =>
    match exec RE_INTERNAL_LINK firstPart with
    | Some internalLinkMatch =>
      let linkPath := cap 1 internalLinkMatch in
      let linkTitle :=
        orElse (group 2 (groups internalLinkMatch))
               (orElse (Some (last (split SLASH linkPath) [])) linkPath) in
      MkForm (typeSelect f) linkTitle
             (linkPath ++ (if endsWith linkPath (utf16 ".md") then []
                           else utf16 ".md"))
             (statusSelect f) (currentRating f)
    | None =>
      match exec RE_LINK firstPart with
      | Some linkMatch =>
        MkForm (typeSelect f) (cap 1 linkMatch) (cap 2 linkMatch)
               (statusSelect f) (currentRating f)
      | None =>
        MkForm (typeSelect f) (replace firstPart RE_HEADING_MARK [])
               (urlInput f) (statusSelect f) (currentRating f)
      end
    end
  | [] => f
  end.

Definition prefillType (parts : list jsstring) (f : Form) : Form :=
  match nth_error parts 1 with
  | Some typePart =>
    match exec RE_LEADING_TOKEN typePart with
    | Some typeIconMatch =>
      let typeIcon := cap 1 typeIconMatch in
      match find (fun t => eqb (icon t) typeIcon) TYPE_OPTIONS with
      | Some typeOption =>
        MkForm (key typeOption) (titleInput f) (urlInput f)
               (statusSelect f) (currentRating f)
      | None => f
      end
    | None => f
    end
  | None => f
  end.

Definition prefillStatus (parts : list jsstring) (f : Form) : Form :=
  match nth_error parts 2 with
  | Some statusPart =>
    match exec RE_BOLD statusPart with
    | Some statusLabelMatch =>
      let statusLabel := cap 1 statusLabelMatch in
      match find (fun s => eqb (label s) statusLabel) STATUS_ORDER with
      | Some statusOption =>
        MkForm (typeSelect f) (titleInput f) (urlInput f)
               (key statusOption) (currentRating f)
      | None => f
      end
    | None => f
    end
  | None => f
  end.

Definition prefillRating (parts : list jsstring) (f : Form) : Form :=
  match nth_error parts 3 with
  | Some ratingPart =>
    let starCount := countMatches FILLED ratingPart in
    MkForm (typeSelect f) (titleInput f) (urlInput f) (statusSelect f)
           starCount
  | None => f
  end.

(** [onOpen] from "Prefill if editing" on; [initialLine] is the optional
    constructor argument. *)
Definition prefill (initialLine : option jsstring) : Form :=
  match initialLine with
  | Some line =>
    if truthy line then
      let parts := map trim (split BAR line) in
      prefillRating parts
        (prefillStatus parts (prefillType parts
          (prefillTitleUrl parts freshForm)))
    else
      MkForm (utf16 "plain-note") [] [] (statusSelect freshForm) 0
  | None => MkForm (utf16 "plain-note") [] [] (statusSelect freshForm) 0
  end.

(** The record the submit handler reads off the form. *)
Definition submitData (f : Form) : ReferenceData :=
  Data (typeSelect f) (trim (titleInput f)) (trim (urlInput f))
       (statusSelect f) (currentRating f).

(** Decoding a line: open the modal on it and read the record back. *)
Definition decodeRecord (line : jsstring) : ReferenceData :=
  submitData (prefill (Some line)).

(* ================================================================= *)
(** ** Status advance: the rewrite of [cycle-ref-status]

    [advanceStatus] is the computation the command applies to the line it
    fetched (the three statements after its placement check). *)

Definition wrapped (l : jsstring) : jsstring :=
  utf16 "**" ++ l ++ utf16 "**".

Definition currIdx (line : jsstring) : Z :=
  findIndex (fun s => includes line (wrapped (label s))) STATUS_ORDER.

(** [x % y] of the language on integers: the sign follows the dividend. *)
Definition nextIdx (line : jsstring) : Z :=
  Z.rem (currIdx line + 1) (Z.of_nat (List.length STATUS_ORDER)).

(** [A[i]]: undefined outside the array. *)
Definition at_ (l : list info) (i : Z) : option info :=
  if (i <? 0)%Z then None else nth_error l (Z.to_nat i).

Definition statusSpan (next : info) : jsstring :=
  utf16 "| " ++ icon next ++ utf16 " **" ++ label next ++ utf16 "**".

Definition advanceStatus (line : jsstring) : result jsstring :=
  match at_ STATUS_ORDER (nextIdx line) with
  | Some next => Ok (replace line RE_STATUS_SPAN (statusSpan next))
  | None => Throw TypeError   (* reading .icon of undefined *)
  end.

(* ================================================================= *)
(** ** The editor

    The editing surface is the host's [Editor] over one text buffer.  A
    position is a line number and a column; a position past the end of its
    line, or on a line past the last one, is clipped to the nearest place
    in the text (the source relies on this when it inserts at line
    [lastLine() + 1]). *)

Record Editor : Type := MkEditor {
  value : jsstring;        (* getValue() *)
  cursorLine : nat         (* getCursor().line *)
}.

Definition linesOf (doc : jsstring) : list jsstring := split NL doc.

(** [editor.getLine(n)], asked for lines of the text only (the cursor
    line, or the one above it). *)
Definition getLine (editor : Editor) (n : nat) : jsstring :=
  nth n (linesOf (value editor)) [].

Definition lastLine (editor : Editor) : nat :=
  (List.length (linesOf (value editor)) - 1)%nat.

Definition posToOffset (doc : jsstring) (pos : nat * nat) : nat :=
  let ls := linesOf doc in
  let (line, ch) := pos in
  if (List.length ls <=? line)%nat then List.length doc
  else (List.length (List.concat (map (fun l => l ++ [NL]) (firstn line ls)))
        + Nat.min ch (List.length (nth line ls [])))%nat.

(** [editor.replaceRange(text, from, to)]; [to] defaults to [from]. *)
Definition replaceRange (editor : Editor) (text : jsstring)
    (from to : nat * nat) : Editor :=
  let doc := value editor in
  MkEditor (firstn (posToOffset doc from) doc ++ text
            ++ skipn (posToOffset doc to) doc)
           (cursorLine editor).

Fixpoint setNth (n : nat) (x : jsstring) (ls : list jsstring)
    : list jsstring :=
  match ls, n with
  | [], _ => []
  | _ :: r, O => x :: r
  | l :: r, S n' => l :: setNth n' x r
  end.

(** [editor.setLine(n, text)] *)
Definition setLine (editor : Editor) (n : nat) (text : jsstring) : Editor :=
  MkEditor (join [NL] (setNth n text (linesOf (value editor))))
           (cursorLine editor).

(** [editor.setValue(text)] *)
Definition setValue (editor : Editor) (text : jsstring) : Editor :=
  MkEditor text (cursorLine editor).

(* ================================================================= *)
(** ** The commands *)

(** Is the cursor on a reference line? (the check shared by the delete and
    cycle commands) *)
Definition onReferenceLine (line : jsstring) : bool :=
  startsWith (trim line) (utf16 "###").

(** The removal done by [delete-reference] at line [lineNum]. *)
Definition deleteRecord (editor : Editor) (lineNum : nat) : Editor :=
  replaceRange editor [] (lineNum, 0%nat) ((lineNum + 1)%nat, 0%nat).

(** [delete-reference] in a Markdown view. *)
Definition deleteReference (editor : Editor) : Editor :=
  let lineNum := cursorLine editor in
  let line := getLine editor lineNum in
  if negb (onReferenceLine line) then editor
  else deleteRecord editor lineNum.

(** [cycle-ref-status] in a Markdown view. *)
Definition cycleRefStatus (editor : Editor) : result Editor :=
  let lineNum := cursorLine editor in
  let line := getLine editor lineNum in
  if negb (onReferenceLine line) then Ok editor
  else
    line' <- advanceStatus line ;;
    Ok (setLine editor lineNum line').

(** The [while] loop of [insertLine]: [ls] is the part of [lines] from
    [insertPos] on. *)
Fixpoint skipReferences (ls : list jsstring) (insertPos : nat) : nat :=
  match ls with
  | l :: r =>
    if startsWith l (utf16 "###") then
      match r with
      | l' :: r' =>
        if negb (startsWith l' (utf16 "###")) && negb (eqb (trim l') [])
        then skipReferences r' (insertPos + 2)
        else skipReferences r (insertPos + 1)
      | [] => (insertPos + 1)%nat
      end
    else insertPos
  | [] => insertPos
  end.

(** [lines.splice(pos, 0, ...items)] *)
Definition splice (ls : list jsstring) (pos : nat) (items : list jsstring)
    : list jsstring :=
  firstn pos ls ++ items ++ skipn pos ls.

(** [insertLine]: the editor it leaves behind and how it completed. *)
Definition insertLine (v : vault) (editor : Editor) (data : ReferenceData)
    : Editor * result unit :=
  let doc := value editor in
  let editor :=
    if negb (test RE_REFERENCES doc)
    then replaceRange editor (NL :: utf16 "## References" ++ [NL])
           ((lastLine editor + 1)%nat, 0%nat)
           ((lastLine editor + 1)%nat, 0%nat)
    else editor in
  let doc := value editor in
  let lines := linesOf doc in
  let headerIdx := findIndex (test RE_REFERENCES) lines in
  let insertPos := Z.to_nat (headerIdx + 1) in
  let insertPos := skipReferences (skipn insertPos lines) insertPos in
  match buildLine v data with
  | Ok built =>
    let refLines := split NL built in
    (setValue editor (join [NL] (splice lines insertPos refLines)), Ok tt)
  | Throw e => (editor, Throw e)
  end.

(** [edit-reference] in a Markdown view: the line the modal is opened on
    and the form it shows, when the cursor is on a reference. *)
Definition editReference (editor : Editor) : option (nat * Form) :=
  let lineNum := cursorLine editor in
  let line := getLine editor lineNum in
  let '(lineNum, line) :=
    if negb (onReferenceLine line) && (0 <? lineNum)%nat then
      let prevLine := getLine editor (lineNum - 1) in
      if onReferenceLine prevLine then ((lineNum - 1)%nat, prevLine)
      else (lineNum, line)
    else (lineNum, line) in
  if negb (onReferenceLine line) then None
  else Some (lineNum, prefill (Some line)).

(* ================================================================= *)
(** ** Vocabulary of the statements *)

(** The detail line of a record span, as [buildLine] lays it out. *)
Definition detailLine (t s : info) (rating : jsstring) : jsstring :=
  icon t ++ utf16 " " ++ label t ++ utf16 " | "
  ++ icon s ++ utf16 " **" ++ label s ++ utf16 "**"
  ++ utf16 " | " ++ rating.

(** The rating field in the specification's words: 0 gives the unrated
    glyph and the text Not Rated, n in 1..5 gives n filled stars followed
    by 5-n empty ones. *)
Definition ratingGlyphs (n : Z) : jsstring :=
  if (n =? 0)%Z then utf16 "⚪ Not Rated"
  else List.repeat FILLED (Z.to_nat n)
       ++ List.repeat HOLLOW (Z.to_nat (5 - n)).

(** The trimmed [|]-separated fields the prefill works on. *)
Definition fieldsOf (line : jsstring) : list jsstring :=
  map trim (split BAR line).

(** What each extraction of the prefill reads from a line: the leading
    token of field 1, the first emphasis-wrapped text of field 2, and
    field 3. *)
Definition typeIconToken (line : jsstring) : option jsstring :=
  match nth_error (fieldsOf line) 1 with
  | Some typePart =>
    match exec RE_LEADING_TOKEN typePart with
    | Some mt => Some (cap 1 mt)
    | None => None
    end
  | None => None
  end.

Definition statusLabelText (line : jsstring) : option jsstring :=
  match nth_error (fieldsOf line) 2 with
  | Some statusPart =>
    match exec RE_BOLD statusPart with
    | Some mt => Some (cap 1 mt)
    | None => None
    end
  | None => None
  end.

Definition ratingField (line : jsstring) : option jsstring :=
  nth_error (fieldsOf line) 3.







(** A string without a line break. *)
Definition oneLine (l : jsstring) : Prop := ~ In NL l.

(** What the two text inputs of the form can hold and the rating stars can
    set: one-line title and target, a rating in 0..5. *)
Definition validRecord (r : ReferenceData) : Prop :=
  oneLine (title r) /\ oneLine (url r) /\ (0 <= stars r <= 5)%Z.

(** The two kinds of line [insertLine] steps over. *)
Definition isHeader (l : jsstring) : Prop :=
  startsWith l (utf16 "###") = true /\ oneLine l.

Definition isDetail (l : jsstring) : Prop :=
  startsWith l (utf16 "###") = false /\ trim l <> [] /\ oneLine l.

Definition detailOk (d : jsstring) : bool :=
  negb (existsb (N.eqb NL) d) && negb (startsWith d (utf16 "###"))
  && negb (eqb (trim d) []).

(** A record span: a header line and its detail line. *)
Definition isSpan (sp : list jsstring) : Prop :=
  exists h d, sp = [h; d] /\ isHeader h /\ isDetail d.

(** The lines that follow the run of spans do not begin with a header. *)
Definition closesRun (post : list jsstring) : Prop :=
  match post with
  | l :: _ => startsWith l (utf16 "###") = false
  | [] => True
  end.

(** The lines [insertLine] splices in for a record. *)
Definition encodedLines (v : vault) (r : ReferenceData) : list jsstring :=
  match buildLine v r with
  | Ok built => split NL built
  | Throw _ => []
  end.


(** A note with a references section: the lines before the heading, the
    heading, a run of record spans and the lines after it. *)
Definition sectionDoc (pre : list jsstring) (heading : jsstring)
    (post : list jsstring) (spans : list (list jsstring)) : jsstring :=
  join [NL] (pre ++ heading :: List.concat spans ++ post).

Definition headingText : jsstring := utf16 "## References".

(** Is some line that contains the heading text directly preceded by a
    blank line? *)
Fixpoint headingAfterBlank (ls : list jsstring) : bool :=
  match ls with
  | a :: r =>
    match r with
    | b :: _ => eqb (trim a) [] && includes b headingText
    | [] => false
    end || headingAfterBlank r
  | [] => false
  end.

(** The whole text a matcher state stands in. *)
Definition textOf (st : mstate) : jsstring := rev (before st) ++ rest st.

Definition keepsText (k : cont) : Prop :=
  forall a b, k a = Some b -> textOf b = textOf a.

(** A vault in which no path resolves. *)
Definition noVault : vault := fun _ => None.

(** The records and lines of the worked examples. *)
Definition introToRust : ReferenceData :=
  Data (utf16 "video") (utf16 "Intro to Rust") (utf16 "https://youtu.be/abc")
       (utf16 "in-progress") 3.

Definition introHeader : jsstring :=
  utf16 "### [Intro to Rust](https://youtu.be/abc)".

Definition introDetail : jsstring :=
  utf16 "🎥 Video | 🔄 **In Progress** | ★★★☆☆".





Definition threeLineNote : jsstring :=
  introHeader ++ [NL] ++ introDetail ++ [NL] ++ utf16 "Next paragraph".

Definition rustBook : ReferenceData :=
  Data (utf16 "textbook") (utf16 "The Rust Book") [] (utf16 "saved") 0.


(** The Intro to Rust record on one line, fields separated by [|]. *)
Definition oneLineLayout : jsstring :=
  introHeader ++ utf16 " | " ++ introDetail.


Definition sixStars : jsstring :=
  utf16 "### Paper | 🎥 Video | ✅ **Completed** | ★★★★★★".

(* ================================================================= *)
(** ** Replacing a record and submitting the form *)

(** [Number.MAX_SAFE_INTEGER], 2^53 - 1: the column [replaceLine] names to
    mean the end of a line. *)
Definition MAX_SAFE_INTEGER : nat := N.to_nat 9007199254740991%N.

(** Does [replaceLine] write the detail over this line?  It does when the
    line is there, not empty and not a header; for a line past the last
    one the editor gives a falsy value, as for an empty line. *)
Definition takesDetail (next : jsstring) : bool :=
  truthy next && negb (startsWith next (utf16 "###")).

(** [replaceLine]: the editor it leaves behind and how it completed. *)
Definition replaceLine (v : vault) (editor : Editor) (lineNum : nat)
    (data : ReferenceData) : Editor * result unit :=
  match buildLine v data with
  | Ok built =>
    let refLines := split NL built in
    let editor := setLine editor lineNum (nth 0 refLines []) in
    match nth_error refLines 1 with
    | Some detail =>
      if takesDetail (getLine editor (lineNum + 1))
      then (setLine editor (lineNum + 1) detail, Ok tt)
      else (replaceRange editor (NL :: detail)
              (lineNum, MAX_SAFE_INTEGER) (lineNum, MAX_SAFE_INTEGER),
            Ok tt)
    | None => (editor, Ok tt)
    end
  | Throw e => (editor, Throw e)
  end.

(** The click handler of the submit button: [editLine] is set when the
    modal was opened by [edit-reference]. *)
Definition submit (v : vault) (editor : Editor) (editLine : option nat)
    (f : Form) : Editor * result unit :=
  let data := submitData f in
  match editLine with
  | Some lineNum => replaceLine v editor lineNum data
  | None => insertLine v editor data
  end.


(** A string that [trim] leaves as it is. *)
Definition trimmed (s : jsstring) : Prop :=
  dropWhile isSpace s = s /\ dropWhile isSpace (rev s) = rev s.

(* ================================================================= *)
(** ** The stars of the modal and the type detection *)

(** [`${n}`] for an integer below 10^21 in size, which every count of code
    units of a string is. *)
Definition decimal (n : Z) : jsstring :=
  utf16 (DecimalString.NilZero.string_of_int (Z.to_int n)).

(** The click handler of the star with index [i]; the modal makes the
    stars with the indices 0 to 4. *)
Definition STAR_INDICES : list nat := [0; 1; 2; 3; 4]%nat.

Definition clickStar (i : nat) (f : Form) : Form :=
  MkForm (typeSelect f) (titleInput f) (urlInput f) (statusSelect f)
         (Z.of_nat i + 1).

(** [updateStarDisplay]: the text of the five star elements and the rating
    text it leaves (colours and sizes are not modelled). *)
Definition updateStarDisplay (currentRating : Z) (hoverRating : option Z)
    : list jsstring * jsstring :=
  let rating := match hoverRating with
                | Some h => h
                | None => currentRating
                end in
  (map (fun index => if (Z.of_nat index <? rating)%Z
                     then [FILLED] else [HOLLOW]) STAR_INDICES,
   if (rating =? 0)%Z then utf16 "Not Rated"
   else decimal rating ++ utf16 "/5").

Section UrlTypeDetection.

(** [String.prototype.toLowerCase], left open: the properties hold for
    every function in its place. *)
Variable toLowerCase : jsstring -> jsstring.

(** [if (typeSelect.value !== k) { typeSelect.value = k; ... }] *)
Definition selectType (f : Form) (k : jsstring) : Form :=
  if negb (eqb (typeSelect f) k)
  then MkForm k (titleInput f) (urlInput f) (statusSelect f)
              (currentRating f)
  else f.

Definition setupUrlTypeDetection (f : Form) : Form :=
  let url := toLowerCase (urlInput f) in
  if includes url (utf16 "youtube.com") || includes url (utf16 "youtu.be")
  then selectType f (utf16 "video")
  else if includes url (utf16 "github.com")
          || includes url (utf16 "gitlab.com")
          || includes url (utf16 "bitbucket.org")
  then selectType f (utf16 "repository")
  else if includes url (utf16 "udemy.com")
          || includes url (utf16 "coursera.org")
          || includes url (utf16 "edx.org")
          || includes url (utf16 "skillshare.com")
  then selectType f (utf16 "course")
  else if includes url (utf16 "amazon.com")
          || includes url (utf16 "goodreads.com")
          || includes url (utf16 "books.google.com")
  then selectType f (utf16 "textbook")
  else if startsWith url (utf16 "http")
          && negb (includes url (utf16 "youtube"))
          && negb (includes url (utf16 "github"))
          && negb (includes url (utf16 "udemy"))
  then selectType f (utf16 "web-page")
  else f.

End UrlTypeDetection.

(* ================================================================= *)
(** ** Vocabulary of the further properties *)

(** A continuation under which the text before the position only grows by
    the code units read. *)
Definition growsBefore (k : cont) : Prop :=
  forall a b, k a = Some b -> exists x, before b = x ++ before a.


(** The headers [buildLine] writes: with a Markdown link, with a wiki link,
    and with a wiki link that carries a display title. *)
Definition linkHeader (T U : jsstring) : jsstring :=
  utf16 "### [" ++ T ++ utf16 "](" ++ U ++ utf16 ")".



(** Does [buildLine] write a wiki link for the record?  It does for a
    plain-note whose target is a file of the vault. *)
Definition notesLink (v : vault) (r : ReferenceData) : bool :=
  eqb (type r) (utf16 "plain-note") && truthy (url r)
  && match v (url r) with Some (TFile _) => true | _ => false end.

(** A title and a target that the header patterns read back: both as
    [trim] leaves them, free of the bar the line is split at, the title free
    of square brackets, the target free of an opening square bracket, a
    closing parenthesis and line terminators, and no target without a
    title. *)
Definition linkSafe (r : ReferenceData) : Prop :=
  trimmed (title r) /\ trimmed (url r)
  /\ ~ In BAR (title r) /\ ~ In LBRACK (title r) /\ ~ In RBRACK (title r)
  /\ ~ In BAR (url r) /\ ~ In LBRACK (url r) /\ ~ In RPAR (url r)
  /\ Forall (fun c => dot c = true) (url r)
  /\ (url r <> [] -> title r <> []).




(* ================================================================= *)
(** ** Facts about the string methods *)

Section StringFacts.

Lemma eqb_refl (a : jsstring) : eqb a a = true.
Proof.
  induction a as [|x a IH]; simpl; [reflexivity|].
  now rewrite N.eqb_refl, IH.
Qed.

Lemma eqb_eq (a b : jsstring) : eqb a b = true <-> a = b.
Proof.
  split; [|intros ->; apply eqb_refl].
  revert b; induction a as [|x a IH]; intros [|y b]; simpl;
    try discriminate; [reflexivity|].
  rewrite andb_true_iff, N.eqb_eq. intros [-> H]. f_equal. now apply IH.
Qed.

Lemma eqb_neq (a b : jsstring) : eqb a b = false <-> a <> b.
Proof.
  rewrite <- eqb_eq. destruct (eqb a b); split; congruence.
Qed.

Lemma startsWith_app (p s : jsstring) : startsWith (p ++ s) p = true.
Proof.
  induction p as [|x p IH]; simpl; [reflexivity|].
  now rewrite N.eqb_refl, IH.
Qed.

Lemma startsWith_spec (s p : jsstring) :
  startsWith s p = true <-> exists r, s = p ++ r.
Proof.
  split.
  - revert s; induction p as [|x p IH]; intros s H.
    + now exists s.
    + destruct s as [|y s]; simpl in H; [discriminate|].
      apply andb_true_iff in H as [E H]. apply N.eqb_eq in E; subst y.
      destruct (IH _ H) as [r ->]. now exists r.
  - intros [r ->]. apply startsWith_app.
Qed.

Lemma startsWith_head (c d : code) (s p : jsstring) :
  c <> d -> startsWith (c :: s) (d :: p) = false.
Proof.
  intros H. simpl. destruct (N.eqb_spec d c); [congruence|reflexivity].
Qed.

Lemma includes_here (s p : jsstring) :
  startsWith s p = true -> includes s p = true.
Proof. intros H. destruct s; simpl; now rewrite H. Qed.

Lemma includes_spec (s p : jsstring) :
  includes s p = true <-> exists a b, s = a ++ p ++ b.
Proof.
  split.
  - induction s as [|c s IH]; simpl; intros H.
    + rewrite orb_false_r in H. apply startsWith_spec in H as [r E].
      now exists [], r.
    + apply orb_true_iff in H as [H|H].
      * apply startsWith_spec in H as [r E]. now exists [], r.
      * destruct (IH H) as (a & b & ->). now exists (c :: a), b.
  - intros (a & b & ->). induction a as [|c a IH].
    + apply includes_here, (startsWith_app p b).
    + change ((c :: a) ++ p ++ b) with (c :: (a ++ p ++ b)).
      simpl. rewrite IH. apply orb_true_r.
Qed.

Lemma split_not_nil (sep : code) (s : jsstring) : split sep s <> [].
Proof.
  destruct s as [|c s]; simpl; [discriminate|].
  destruct (N.eqb c sep); [discriminate|].
  destruct (split sep s); discriminate.
Qed.

Lemma split_free (sep : code) (a : jsstring) :
  ~ In sep a -> split sep a = [a].
Proof.
  induction a as [|c a IH]; simpl; intros H; [reflexivity|].
  destruct (N.eqb_spec c sep) as [->|_]; [tauto|].
  rewrite IH by tauto. reflexivity.
Qed.

Lemma split_app (sep : code) (a b : jsstring) :
  split sep (a ++ sep :: b) = split sep a ++ split sep b.
Proof.
  induction a as [|c a IH]; simpl.
  - now rewrite N.eqb_refl.
  - destruct (N.eqb c sep); [now rewrite IH|].
    rewrite IH. destruct (split sep a) eqn:E; [|reflexivity].
    now destruct (split_not_nil sep a).
Qed.

Lemma join_cons (sep l : jsstring) (ls : list jsstring) :
  ls <> [] -> join sep (l :: ls) = l ++ sep ++ join sep ls.
Proof. destruct ls; [congruence|reflexivity]. Qed.

Lemma join_app (sep : jsstring) (A B : list jsstring) :
  A <> [] -> B <> [] ->
  join sep (A ++ B) = join sep A ++ sep ++ join sep B.
Proof.
  intros HA HB. induction A as [|a A IH]; [congruence|].
  destruct A as [|a' A].
  - simpl app. now rewrite join_cons.
  - change ((a :: a' :: A) ++ B) with (a :: ((a' :: A) ++ B)).
    rewrite join_cons by discriminate.
    rewrite IH by discriminate.
    rewrite (join_cons sep a (ls := a' :: A)) by discriminate.
    now rewrite <- !app_assoc.
Qed.

Lemma join_split (sep : code) (s : jsstring) :
  join [sep] (split sep s) = s.
Proof.
  induction s as [|c s IH]; simpl; [reflexivity|].
  destruct (N.eqb_spec c sep) as [->|_].
  - rewrite join_cons by apply split_not_nil. now rewrite IH.
  - destruct (split sep s) as [|w ws] eqn:E.
    + now destruct (split_not_nil sep s).
    + destruct ws as [|w' ws].
      * simpl in *. now subst.
      * rewrite join_cons by discriminate.
        rewrite join_cons in IH by discriminate.
        simpl. now rewrite <- IH.
Qed.

Lemma split_join (sep : code) (ls : list jsstring) :
  ls <> [] -> Forall (fun l => ~ In sep l) ls ->
  split sep (join [sep] ls) = ls.
Proof.
  intros Hne H. revert Hne.
  induction H as [|l ls Hl H IH]; intros Hne; [now elim Hne|].
  destruct ls as [|l' ls].
  - simpl. now apply split_free.
  - rewrite join_cons by discriminate. cbn [app].
    rewrite split_app, split_free by assumption.
    cbn [app]. now rewrite IH by discriminate.
Qed.

End StringFacts.

(* ================================================================= *)
(** ** Encoding *)

Section Encoding.

Variable v : vault.

Lemma starString_valid (n : Z) :
  (0 <= n <= 5)%Z -> starString n = Ok (ratingGlyphs n).
Proof.
  intros H.
  assert (n = 0 \/ n = 1 \/ n = 2 \/ n = 3 \/ n = 4 \/ n = 5)%Z
    as [->|[->|[->|[->|[->| ->]]]]] by lia; reflexivity.
Qed.

Lemma starString_above (n : Z) :
  (5 < n)%Z -> starString n = Throw RangeError.
Proof.
  intros H. unfold starString.
  destruct (Z.eqb_spec n 0) as [->|_]; [lia|].
  unfold JS.repeat.
  destruct (Z.ltb_spec n 0); [lia|].
  destruct (Z.ltb_spec (5 - n) 0); [reflexivity|lia].
Qed.

Lemma buildLine_throws (d : ReferenceData) (e : exn) :
  starString (stars d) = Throw e -> buildLine v d = Throw e.
Proof. intros H. unfold buildLine. now rewrite H. Qed.



End Encoding.


(* ================================================================= *)
(** ** Decoding *)

(** A code unit does not occur in a literal. *)
Ltac not_in_literal :=
  let H := fresh in
  vm_compute; intros H;
  repeat (destruct H as [H|H]; [discriminate H|]); exact H.

(** Case analysis on every scrutinee of the goal. *)
Ltac break_match :=
  repeat match goal with
         | |- context [match ?x with _ => _ end] => destruct x
         end.

(** Each step of the prefill touches its own fields only. *)

Lemma prefillTitleUrl_frame (parts : list jsstring) (f : Form) :
  let f' := prefillTitleUrl parts f in
  typeSelect f' = typeSelect f /\ statusSelect f' = statusSelect f
  /\ currentRating f' = currentRating f.
Proof. unfold prefillTitleUrl. break_match; repeat split. Qed.

Lemma prefillType_frame (parts : list jsstring) (f : Form) :
  let f' := prefillType parts f in
  titleInput f' = titleInput f /\ urlInput f' = urlInput f
  /\ statusSelect f' = statusSelect f /\ currentRating f' = currentRating f.
Proof. unfold prefillType. break_match; repeat split. Qed.

Lemma prefillStatus_frame (parts : list jsstring) (f : Form) :
  let f' := prefillStatus parts f in
  titleInput f' = titleInput f /\ urlInput f' = urlInput f
  /\ typeSelect f' = typeSelect f /\ currentRating f' = currentRating f.
Proof. unfold prefillStatus. break_match; repeat split. Qed.

Lemma prefillRating_frame (parts : list jsstring) (f : Form) :
  let f' := prefillRating parts f in
  titleInput f' = titleInput f /\ urlInput f' = urlInput f
  /\ typeSelect f' = typeSelect f /\ statusSelect f' = statusSelect f.
Proof. unfold prefillRating. break_match; repeat split. Qed.

Lemma decode_type (line : jsstring) :
  type (decodeRecord line) =
  match typeIconToken line with
  | Some tok =>
    match find (fun t => eqb (icon t) tok) TYPE_OPTIONS with
    | Some t => key t
    | None => key (first TYPE_OPTIONS)
    end
  | None => key (first TYPE_OPTIONS)
  end.
Proof.
  unfold decodeRecord, submitData, typeIconToken. cbn [type].
  destruct line as [|c line]; [reflexivity|].
  unfold prefill. cbn [truthy]. fold (fieldsOf (c :: line)).
  set (parts := fieldsOf (c :: line)).
  destruct (prefillRating_frame parts
    (prefillStatus parts (prefillType parts (prefillTitleUrl parts freshForm))))
    as (_ & _ & -> & _).
  destruct (prefillStatus_frame parts
    (prefillType parts (prefillTitleUrl parts freshForm)))
    as (_ & _ & -> & _).
  destruct (prefillTitleUrl_frame parts freshForm) as (E & _).
  unfold prefillType.
  destruct (nth_error parts 1); [|exact E].
  destruct (exec RE_LEADING_TOKEN j); [|exact E].
  destruct (find _ TYPE_OPTIONS); [reflexivity|exact E].
Qed.

Lemma decode_status (line : jsstring) :
  status (decodeRecord line) =
  match statusLabelText line with
  | Some l =>
    match find (fun s => eqb (label s) l) STATUS_ORDER with
    | Some s => key s
    | None => key (first STATUS_ORDER)
    end
  | None => key (first STATUS_ORDER)
  end.
Proof.
  unfold decodeRecord, submitData, statusLabelText. cbn [status].
  destruct line as [|c line]; [reflexivity|].
  unfold prefill. cbn [truthy]. fold (fieldsOf (c :: line)).
  set (parts := fieldsOf (c :: line)).
  destruct (prefillRating_frame parts
    (prefillStatus parts (prefillType parts (prefillTitleUrl parts freshForm))))
    as (_ & _ & _ & ->).
  assert (E : statusSelect (prefillType parts (prefillTitleUrl parts freshForm))
              = key (first STATUS_ORDER)).
  { destruct (prefillType_frame parts (prefillTitleUrl parts freshForm))
      as (_ & _ & -> & _).
    now destruct (prefillTitleUrl_frame parts freshForm) as (_ & -> & _). }
  unfold prefillStatus.
  destruct (nth_error parts 2); [|exact E].
  destruct (exec RE_BOLD j); [|exact E].
  destruct (find _ STATUS_ORDER); [reflexivity|exact E].
Qed.

Lemma decode_stars (line : jsstring) :
  stars (decodeRecord line) =
  match ratingField line with
  | Some ratingPart => countMatches FILLED ratingPart
  | None => 0%Z
  end.
Proof.
  unfold decodeRecord, submitData, ratingField. cbn [stars].
  destruct line as [|c line]; [reflexivity|].
  unfold prefill. cbn [truthy]. fold (fieldsOf (c :: line)).
  set (parts := fieldsOf (c :: line)).
  unfold prefillRating at 1.
  destruct (nth_error parts 3); [reflexivity|].
  destruct (prefillStatus_frame parts
    (prefillType parts (prefillTitleUrl parts freshForm)))
    as (_ & _ & _ & ->).
  destruct (prefillType_frame parts (prefillTitleUrl parts freshForm))
    as (_ & _ & _ & ->).
  now destruct (prefillTitleUrl_frame parts freshForm) as (_ & _ & ->).
Qed.


Lemma filter_dropWhile (p q : code -> bool) (s : jsstring) :
  (forall c, q c = true -> p c = false) ->
  filter p (dropWhile q s) = filter p s.
Proof.
  intros H. induction s as [|c s IH]; [reflexivity|]. simpl.
  destruct (q c) eqn:E; [|reflexivity].
  now rewrite (H c E).
Qed.

Lemma countMatches_trim (c : code) (s : jsstring) :
  isSpace c = false -> countMatches c (trim s) = countMatches c s.
Proof.
  intros Hc. unfold countMatches, trim. f_equal.
  assert (H : forall d, isSpace d = true -> N.eqb c d = false).
  { intros d Hd. destruct (N.eqb_spec c d) as [->|]; congruence. }
  rewrite filter_rev, length_rev, filter_dropWhile by exact H.
  now rewrite filter_rev, length_rev, filter_dropWhile by exact H.
Qed.

Lemma fieldsOf_four (a b c r : jsstring) :
  ~ In BAR a -> ~ In BAR b -> ~ In BAR c -> ~ In BAR r ->
  fieldsOf (a ++ BAR :: b ++ BAR :: c ++ BAR :: r)
  = [trim a; trim b; trim c; trim r].
Proof.
  intros Ha Hb Hc Hr. unfold fieldsOf.
  now rewrite !split_app, !split_free by assumption.
Qed.




(** C10. The rating is the number of filled stars in field 3, whatever it
    is: when a line carries more than five, the decoded record has that
    rating, [starString] raises RangeError on it (the count [5 - n] of the
    second [repeat] is negative), and so does [buildLine]. *)
Theorem rating_not_clamped (v : vault) (a b c r : jsstring) :
  ~ In BAR a -> ~ In BAR b -> ~ In BAR c -> ~ In BAR r ->
  (5 < countMatches FILLED r)%Z ->
  let d := decodeRecord (a ++ BAR :: b ++ BAR :: c ++ BAR :: r) in
  stars d = countMatches FILLED r
  /\ starString (stars d) = Throw RangeError
  /\ buildLine v d = Throw RangeError.
Proof.
  intros Ha Hb Hc Hr Hk d.
  assert (E : stars d = countMatches FILLED r).
  { subst d. rewrite decode_stars. unfold ratingField.
    rewrite fieldsOf_four by assumption. cbn [nth_error].
    now apply countMatches_trim. }
  assert (T : starString (stars d) = Throw RangeError).
  { rewrite E. now apply starString_above. }
  split; [exact E|]. split; [exact T|]. now apply buildLine_throws.
Qed.

Lemma rating_not_clamped_witness :
  stars (decodeRecord sixStars) = 6%Z
  /\ starString (stars (decodeRecord sixStars)) = Throw RangeError
  /\ buildLine noVault (decodeRecord sixStars) = Throw RangeError.
Proof.
  refine (@rating_not_clamped noVault (utf16 "### Paper ")
            (utf16 " 🎥 Video ") (utf16 " ✅ **Completed** ")
            (utf16 " ★★★★★★") _ _ _ _ _);
    vm_compute; try reflexivity;
    intros H; repeat (destruct H as [H|H]; [discriminate H|]); exact H.
Defined.

(** C1. The span that [buildLine] writes for the Intro to Rust record
    (video, in-progress, 3 stars) does not decode to it.  The edit command
    opens the modal on the header line, with the cursor on either line of
    the span, and the form shows the defaults plain-note, saved and 0; the
    same holds when the decoder is given the detail line or both lines.
    The layout the decoder does read back is the one-line one. *)
Theorem edit_resets_fields :
  buildLine noVault introToRust = Ok (introHeader ++ [NL] ++ introDetail)
  /\ (forall cur, (cur <= 1)%nat ->
      editReference (MkEditor (introHeader ++ [NL] ++ introDetail) cur)
      = Some (0%nat, MkForm (utf16 "plain-note") (utf16 "Intro to Rust")
                        (utf16 "https://youtu.be/abc") (utf16 "saved") 0))
  /\ decodeRecord introHeader
     = Data (utf16 "plain-note") (utf16 "Intro to Rust")
            (utf16 "https://youtu.be/abc") (utf16 "saved") 0
  /\ decodeRecord introDetail
     = Data (utf16 "plain-note") (utf16 "🎥 Video") [] (utf16 "saved") 0
  /\ type (decodeRecord (introHeader ++ [NL] ++ introDetail))
     = utf16 "plain-note"
  /\ status (decodeRecord (introHeader ++ [NL] ++ introDetail))
     = utf16 "saved"
  /\ stars (decodeRecord (introHeader ++ [NL] ++ introDetail)) = 0%Z
  /\ decodeRecord oneLineLayout = introToRust.
Proof.
  split; [reflexivity|]. split.
  { intros [|[|cur]] H; [reflexivity|reflexivity|lia]. }
  repeat split.
Qed.

(* ================================================================= *)
(** ** The matcher on a status span *)

(** A greedy quantifier takes a whole run when what follows then matches;
    a lazy one takes the shortest run after which what follows matches. *)
Lemma rep_greedy_run (p : code -> bool) (k : cont) (tok s bf : jsstring)
    (cs : list (nat * jsstring)) (st : mstate) :
  Forall (fun c => p c = true) tok ->
  match s with c :: _ => p c = false | [] => True end ->
  k (MState (rev tok ++ bf) s cs) = Some st ->
  rep true p k bf (tok ++ s) cs = Some st.
Proof.
  intros Ht Hs. revert bf. induction Ht as [|c tok Hc Ht IH]; intros bf Hk.
  - cbn [app rev] in *. destruct s as [|c s]; cbn [rep]; [exact Hk|].
    now rewrite Hs.
  - cbn [app rep]. rewrite Hc.
    rewrite (IH (c :: bf)); [reflexivity|].
    cbn [rev] in Hk. now rewrite <- app_assoc in Hk.
Qed.

Lemma rep_lazy_run (p : code -> bool) (k : cont) (body s bf : jsstring)
    (cs : list (nat * jsstring)) (st : mstate) :
  Forall (fun c => p c = true) body ->
  (forall t u b, body = u ++ t -> t <> [] -> k (MState b (t ++ s) cs) = None) ->
  k (MState (rev body ++ bf) s cs) = Some st ->
  rep false p k bf (body ++ s) cs = Some st.
Proof.
  intros Hb. revert bf. induction Hb as [|c body Hc Hb IH]; intros bf Hn Hk.
  - cbn [app rev] in *. destruct s as [|c s]; cbn [rep]; [exact Hk|].
    destruct (p c); [now rewrite Hk|exact Hk].
  - cbn [app rep]. rewrite Hc.
    pose proof (Hn (c :: body) [] bf eq_refl ltac:(discriminate)) as E.
    cbn [app] in E. rewrite E.
    apply IH.
    + intros t u b -> Ht. apply (Hn t (c :: u)); [reflexivity|exact Ht].
    + cbn [rev] in Hk. now rewrite <- app_assoc in Hk.
Qed.

Lemma search_skip (r : re) (pre s bf : jsstring) :
  ~ In BAR pre ->
  search (Seq (Chr (chr BAR)) r) bf (pre ++ s)
  = search (Seq (Chr (chr BAR)) r) (rev pre ++ bf) s.
Proof.
  revert bf. induction pre as [|c pre IH]; intros bf H; [reflexivity|].
  cbn [app search m rest before caps].
  destruct (chr BAR c) eqn:E.
  - apply N.eqb_eq in E. elim H. now left.
  - rewrite IH by (intros Hin; apply H; now right).
    cbn [rev]. now rewrite <- app_assoc.
Qed.

Lemma m_seq (a b : re) (k : cont) (st : mstate) :
  m (Seq a b) k st = m a (m b k) st.
Proof. reflexivity. Qed.

Lemma m_chr (p : code -> bool) (k : cont) (bf rs : jsstring) (c : code)
    (cs : list (nat * jsstring)) :
  p c = true ->
  m (Chr p) k (MState bf (c :: rs) cs) = k (MState (c :: bf) rs cs).
Proof. intros H. cbn. now rewrite H. Qed.

Lemma m_chr_miss (p : code -> bool) (k : cont) (bf rs : jsstring) (c : code)
    (cs : list (nat * jsstring)) :
  p c = false -> m (Chr p) k (MState bf (c :: rs) cs) = None.
Proof. intros H. cbn. now rewrite H. Qed.

Lemma m_plus (g : bool) (p : code -> bool) (k : cont) (bf rs : jsstring)
    (c : code) (cs : list (nat * jsstring)) :
  p c = true ->
  m (Plus g p) k (MState bf (c :: rs) cs) = rep g p k (c :: bf) rs cs.
Proof. intros H. cbn. now rewrite H. Qed.












(** The replacement text of the rewrite holds no [$], so it is inserted as
    it is. *)
Lemma replacement_plain :
  Forall (fun s => ~ In DOLLAR (statusSpan s)) STATUS_ORDER.
Proof. repeat constructor; not_in_literal. Qed.












(* ================================================================= *)
(** ** The editor and the section *)

(** The text up to the start of line [|A|]. *)
Lemma join_concat (A B : list jsstring) :
  B <> [] ->
  join [NL] (A ++ B)
  = List.concat (map (fun l => l ++ [NL]) A) ++ join [NL] B.
Proof.
  intros HB. induction A as [|a A IH]; [reflexivity|].
  cbn [app map List.concat]. rewrite join_cons.
  - rewrite IH. now rewrite <- !app_assoc.
  - destruct A; [assumption|discriminate].
Qed.

Lemma firstn_exact (A : Type) (x y : list A) :
  firstn (List.length x) (x ++ y) = x.
Proof.
  rewrite firstn_app, Nat.sub_diag, firstn_all. cbn. apply app_nil_r.
Qed.

Lemma skipn_exact (A : Type) (x y : list A) :
  skipn (List.length x) (x ++ y) = y.
Proof.
  rewrite skipn_app, Nat.sub_diag, skipn_all. reflexivity.
Qed.

Lemma linesOf_join (ls : list jsstring) :
  ls <> [] -> Forall oneLine ls -> linesOf (join [NL] ls) = ls.
Proof. intros. now apply split_join. Qed.

(** The removal of [delete-reference] at line [|A|], not the last one,
    takes that one line out. *)
Lemma deleteRecord_lines (A : list jsstring) (b : jsstring)
    (B : list jsstring) (cur : nat) :
  Forall oneLine A -> oneLine b -> Forall oneLine B -> B <> [] ->
  deleteRecord (MkEditor (join [NL] (A ++ b :: B)) cur) (List.length A)
  = MkEditor (join [NL] (A ++ B)) cur.
Proof.
  intros HA Hb HB HB0.
  unfold deleteRecord, replaceRange, posToOffset. cbn [value cursorLine].
  rewrite linesOf_join;
    [|now destruct A|apply Forall_app; split; [assumption|now constructor]].
  rewrite length_app. cbn [List.length].
  destruct (Nat.leb_spec (List.length A + S (List.length B)) (List.length A));
    [lia|].
  destruct (Nat.leb_spec (List.length A + S (List.length B))
                         (List.length A + 1)).
  { destruct B; [congruence|cbn [List.length] in *; lia]. }
  rewrite !Nat.min_0_l, !Nat.add_0_r.
  rewrite firstn_exact.
  replace (List.length A + 1)%nat with (List.length (A ++ [b]))
    by (rewrite length_app; reflexivity).
  replace (A ++ b :: B) with ((A ++ [b]) ++ B)
    by (now rewrite <- app_assoc).
  rewrite firstn_exact.
  rewrite (join_concat (A ++ [b])) by assumption.
  rewrite skipn_exact.
  rewrite map_app, concat_app. cbn [map List.concat].
  rewrite <- app_assoc. rewrite firstn_exact.
  cbn [app]. now rewrite join_concat by assumption.
Qed.

(** A pattern of literal code units matches where the text has them. *)
Lemma m_lit (p : jsstring) (k : cont) (bf rs : jsstring)
    (cs : list (nat * jsstring)) :
  m (lit p) k (MState bf rs cs)
  = if startsWith rs p
    then k (MState (rev p ++ bf) (skipn (List.length p) rs) cs)
    else None.
Proof.
  revert bf rs. induction p as [|x p IH]; intros bf rs; [reflexivity|].
  unfold lit, cat. cbn [map fold_right m rest before caps startsWith].
  destruct rs as [|y rs]; [reflexivity|].
  unfold chr at 1. destruct (N.eqb x y) eqn:E; [|reflexivity].
  apply N.eqb_eq in E. subst y. cbn [andb].
  fold (cat (map (fun c => Chr (chr c)) p)). fold (lit p).
  rewrite IH. cbn [rev skipn List.length]. now rewrite <- app_assoc.
Qed.

Lemma test_lit (p s : jsstring) : test (lit p) s = includes s p.
Proof.
  unfold test, exec.
  assert (G : forall rs bf,
            match search (lit p) bf rs with Some _ => true | None => false end
            = includes rs p).
  { induction rs as [|c rs IH]; intros bf.
    - cbn [search includes]. rewrite m_lit.
      destruct (startsWith [] p); reflexivity.
    - cbn [search includes]. rewrite m_lit.
      destruct (startsWith (c :: rs) p); [reflexivity|]. apply IH. }
  specialize (G s []).
  destruct (search (lit p) [] s) as [[bf st]|]; exact G.
Qed.

Lemma join_segment (sep : jsstring) (ls : list jsstring) (l : jsstring) :
  In l ls -> exists a b, join sep ls = a ++ l ++ b.
Proof.
  induction ls as [|x r IH]; intros H; [destruct H|].
  destruct r as [|y r].
  - destruct H as [<-|[]]. exists [], []. cbn. now rewrite app_nil_r.
  - rewrite join_cons by discriminate. destruct H as [<-|H].
    + now exists [], (sep ++ join sep (y :: r)).
    + destruct (IH H) as (a & b & ->). exists (x ++ sep ++ a), b.
      now rewrite <- !app_assoc.
Qed.

Lemma split_segment (sep : code) (s l : jsstring) :
  In l (split sep s) -> exists a b, s = a ++ l ++ b.
Proof.
  intros H. destruct (join_segment [sep] _ _ H) as (a & b & E).
  rewrite join_split in E. eauto.
Qed.

Lemma includes_segment (a l b p : jsstring) :
  includes l p = true -> includes (a ++ l ++ b) p = true.
Proof.
  intros H. apply includes_spec in H as (x & y & ->).
  apply includes_spec. exists (a ++ x), (y ++ b). now rewrite <- !app_assoc.
Qed.

(** A text with a line that matches /## References/ matches it. *)
Lemma line_matches_doc (doc l : jsstring) :
  In l (linesOf doc) -> test RE_REFERENCES l = true ->
  test RE_REFERENCES doc = true.
Proof.
  unfold RE_REFERENCES. rewrite !test_lit. intros Hl H.
  destruct (split_segment _ _ _ Hl) as (a & b & ->).
  now apply includes_segment.
Qed.

Lemma no_line_matches (doc : jsstring) :
  test RE_REFERENCES doc = false ->
  forall l, In l (linesOf doc) -> test RE_REFERENCES l = false.
Proof.
  intros H l Hl. destruct (test RE_REFERENCES l) eqn:E; [|reflexivity].
  rewrite (line_matches_doc _ _ Hl E) in H. discriminate.
Qed.

Lemma findIndexFrom_first (A : Type) (p : A -> bool) (xs : list A) (x : A)
    (ys : list A) (i : Z) :
  (forall a, In a xs -> p a = false) -> p x = true ->
  findIndexFrom p (xs ++ x :: ys) i = (i + Z.of_nat (List.length xs))%Z.
Proof.
  revert i. induction xs as [|a xs IH]; intros i Hxs Hx.
  - cbn. rewrite Hx. lia.
  - cbn [app findIndexFrom]. rewrite (Hxs a) by now left.
    rewrite IH; [|intros b Hb; apply Hxs; now right|assumption].
    cbn [List.length]. lia.
Qed.

(** Without the heading, [insertLine] appends it and puts the encoded
    record below it. *)
Lemma insertLine_appends_heading (v : vault) (editor : Editor)
    (data : ReferenceData) (built : jsstring) :
  test RE_REFERENCES (value editor) = false ->
  buildLine v data = Ok built ->
  insertLine v editor data
  = (MkEditor (value editor ++ [NL] ++ headingText ++ [NL] ++ built ++ [NL])
              (cursorLine editor), Ok tt)
  /\ linesOf (value (fst (insertLine v editor data)))
     = linesOf (value editor) ++ [headingText] ++ linesOf built ++ [[]].
Proof.
  intros Hno Hb.
  assert (E : insertLine v editor data
   = (MkEditor (value editor ++ [NL] ++ headingText ++ [NL] ++ built ++ [NL])
              (cursorLine editor), Ok tt)).
  { unfold insertLine. rewrite Hno. cbn [negb].
    unfold replaceRange, posToOffset, lastLine.
    set (doc := value editor).
    assert (L : (List.length (linesOf doc) <=? List.length (linesOf doc) - 1 + 1)%nat = true).
    { apply Nat.leb_le. lia. }
    rewrite L. rewrite firstn_all, skipn_all, app_nil_r.
    cbn [value cursorLine].
    fold headingText.
    assert (Ls : linesOf (doc ++ NL :: headingText ++ [NL])
                 = linesOf doc ++ [headingText; []]).
    { unfold linesOf. rewrite split_app. reflexivity. }
    rewrite Ls.
    unfold findIndex.
    rewrite findIndexFrom_first;
      [|now apply no_line_matches|reflexivity].
    replace (Z.to_nat (0 + Z.of_nat (List.length (linesOf doc)) + 1))
      with (List.length (linesOf doc ++ [headingText]))
      by (rewrite length_app; cbn [List.length]; lia).
    replace (linesOf doc ++ [headingText; []])
      with ((linesOf doc ++ [headingText]) ++ [[]])
      by (now rewrite <- app_assoc).
    rewrite skipn_exact.
    change (skipReferences [[]] (List.length (linesOf doc ++ [headingText])))
      with (List.length (linesOf doc ++ [headingText])).
    rewrite Hb. unfold splice, setValue. cbn [value cursorLine].
    rewrite firstn_exact, skipn_exact.
    f_equal. f_equal.
    rewrite <- app_assoc.
    rewrite join_app; [|apply split_not_nil|discriminate].
    unfold linesOf. rewrite join_split.
    cbn [app]. rewrite join_cons by (destruct (split NL built) eqn:X;
      [now destruct (split_not_nil NL built)|discriminate]).
    rewrite join_app; [|apply split_not_nil|discriminate].
    rewrite join_split. reflexivity. }
  split; [exact E|].
  rewrite E. cbn [fst value]. unfold linesOf.
  change ([NL] ++ headingText ++ [NL] ++ built ++ [NL])
    with (NL :: headingText ++ NL :: built ++ [NL]).
  rewrite split_app.
  rewrite (split_app NL headingText).
  replace (built ++ [NL]) with (built ++ NL :: []) by reflexivity.
  rewrite split_app. reflexivity.
Qed.

(* ================================================================= *)
(** ** A match is part of the text *)

Lemma rep_keepsText (g : bool) (p : code -> bool) (k : cont) :
  keepsText k ->
  forall rs bf cs st, rep g p k bf rs cs = Some st ->
                      textOf st = rev bf ++ rs.
Proof.
  intros Hk. induction rs as [|c rs IH]; intros bf cs st H; cbn [rep] in H.
  - now apply Hk in H.
  - destruct (p c); [|now apply Hk in H].
    assert (S1 : forall st, rep g p k (c :: bf) rs cs = Some st ->
                            textOf st = rev bf ++ c :: rs).
    { intros st' H'. apply IH in H'. rewrite H'. cbn [rev].
      now rewrite <- app_assoc. }
    destruct g.
    + destruct (rep true p k (c :: bf) rs cs) eqn:E.
      * injection H as <-. now apply S1.
      * now apply Hk in H.
    + destruct (k (MState bf (c :: rs) cs)) eqn:E.
      * injection H as <-. now apply Hk in E.
      * now apply S1.
Qed.

Lemma m_keepsText (r : re) :
  forall k, keepsText k -> keepsText (m r k).
Proof.
  induction r as [|p|a IHa b IHb|g p|g p|i a IHa|a IHa| |];
    intros k Hk st st' H.
  - now apply Hk.
  - destruct st as [bf [|c rs] cs]; cbn in H; [discriminate|].
    destruct (p c); [|discriminate]. apply Hk in H. rewrite H.
    unfold textOf. cbn. now rewrite <- app_assoc.
  - cbn [m] in H. exact (IHa (m b k) (IHb k Hk) _ _ H).
  - destruct st as [bf rs cs]. cbn [m before rest caps] in H.
    now apply (@rep_keepsText _ _ _ Hk) in H.
  - destruct st as [bf [|c rs] cs]; cbn in H; [discriminate|].
    destruct (p c); [|discriminate].
    apply (@rep_keepsText _ _ _ Hk) in H. rewrite H. unfold textOf. cbn.
    now rewrite <- app_assoc.
  - cbn [m] in H. refine (IHa _ _ _ _ H).
    intros x y Hxy. apply Hk in Hxy. exact Hxy.
  - cbn [m] in H. destruct (m a k st) eqn:E.
    + injection H as <-. exact (IHa k Hk _ _ E).
    + now apply Hk.
  - cbn [m] in H. destruct (before st); [now apply Hk|discriminate].
  - cbn [m] in H. destruct (rest st); [now apply Hk|discriminate].
Qed.

Lemma search_text (r : re) :
  forall rs bf bf' st, search r bf rs = Some (bf', st) ->
  textOf st = rev bf ++ rs /\ exists t, rev bf' = rev bf ++ t /\ exists u, rs = t ++ u.
Proof.
  induction rs as [|c rs IH]; intros bf bf' st H; cbn [search] in H.
  - destruct (m r Some (MState bf [] [])) eqn:E; [|discriminate].
    injection H as <- <-. split.
    + apply (@m_keepsText r Some) in E; [exact E|]. intros a b [= <-]. reflexivity.
    + exists []. rewrite app_nil_r. split; [reflexivity|now exists []].
  - destruct (m r Some (MState bf (c :: rs) [])) eqn:E.
    + injection H as <- <-. split.
      * apply (@m_keepsText r Some) in E; [exact E|]. intros a b [= <-]. reflexivity.
      * exists []. rewrite app_nil_r. split; [reflexivity|now exists (c :: rs)].
    + apply IH in H as (T & t & Ht & u & ->). split.
      * rewrite T. cbn [rev]. now rewrite <- app_assoc.
      * exists (c :: t). split; [|now exists u].
        rewrite Ht. cbn [rev]. now rewrite <- app_assoc.
Qed.

(** What [replace] with an empty replacement leaves is part of the text. *)
Lemma replace_empty_In (s : jsstring) (r : re) (c : code) :
  In c (replace s r []) -> In c s.
Proof.
  unfold replace, exec.
  destruct (search r [] s) as [[bf st]|] eqn:E; [|tauto].
  apply search_text in E as (T & t & Ht & u & Hu).
  cbn [prefix suffix app]. intros H. apply in_app_or in H as [H|H].
  - rewrite Ht in H. cbn in H. subst s. apply in_or_app. now left.
  - cbn in T. rewrite <- T. unfold textOf. apply in_or_app. now right.
Qed.

(* ================================================================= *)
(** ** Record spans *)

Lemma detailOk_isDetail (d : jsstring) : detailOk d = true -> isDetail d.
Proof.
  unfold detailOk, isDetail, oneLine. rewrite !andb_true_iff, !negb_true_iff.
  intros [[H1 H2] H3]. split; [exact H2|]. split; [now apply eqb_neq|].
  intros H. assert (existsb (N.eqb NL) d = true); [|congruence].
  apply existsb_exists. exists NL. split; [exact H|apply N.eqb_refl].
Qed.

Lemma find_In (A : Type) (p : A -> bool) (l : list A) (x : A) :
  find p l = Some x -> In x l.
Proof.
  induction l as [|y l IH]; cbn; [discriminate|].
  destruct (p y); [intros [= ->]; now left|]. intros H. right. now apply IH.
Qed.

Lemma getTypeInfo_In (k : jsstring) : In (getTypeInfo k) TYPE_OPTIONS.
Proof.
  unfold getTypeInfo. destruct (find _ _) eqn:E; [now apply find_In in E|].
  now left.
Qed.

Lemma getStatusInfo_In (k : jsstring) : In (getStatusInfo k) STATUS_ORDER.
Proof.
  unfold getStatusInfo. destruct (find _ _) eqn:E; [now apply find_In in E|].
  now left.
Qed.

Lemma detailLine_isDetail (t s : info) (n : Z) :
  In t TYPE_OPTIONS -> In s STATUS_ORDER -> (0 <= n <= 5)%Z ->
  isDetail (detailLine t s (ratingGlyphs n)).
Proof.
  intros Ht Hs Hn. apply detailOk_isDetail.
  assert (All : forallb (fun t => forallb (fun s => forallb (fun n =>
            detailOk (detailLine t s (ratingGlyphs n)))
            [0; 1; 2; 3; 4; 5]%Z) STATUS_ORDER) TYPE_OPTIONS = true)
    by (vm_compute; reflexivity).
  rewrite forallb_forall in All. specialize (All t Ht).
  rewrite forallb_forall in All. specialize (All s Hs).
  rewrite forallb_forall in All. apply All.
  cbn. lia.
Qed.

Lemma oneLine_app (a b : jsstring) :
  oneLine a -> oneLine b -> oneLine (a ++ b).
Proof. unfold oneLine. intros Ha Hb H. apply in_app_or in H. tauto. Qed.

Lemma buildLine_span (v : vault) (r : ReferenceData) :
  validRecord r ->
  exists h d, buildLine v r = Ok (h ++ NL :: d) /\ isHeader h /\ isDetail d.
Proof.
  intros (Ht & Hu & Hs). unfold buildLine.
  rewrite starString_valid by assumption. cbn [bind].
  match goal with
  | |- context [utf16 "### " ++ ?link ++ [NL] ++ ?rest] =>
    exists (utf16 "### " ++ link), rest
  end.
  split; [now rewrite <- app_assoc|]. split.
  - split; [reflexivity|].
    apply oneLine_app; [not_in_literal|].
    assert (L : oneLine (utf16 "[" ++ title r ++ utf16 "](" ++ url r ++ utf16 ")")).
    { repeat apply oneLine_app; try assumption; not_in_literal. }
    destruct (eqb (type r) (utf16 "plain-note") && truthy (url r)).
    + destruct (v (url r)) as [[noteName|]|]; try exact L.
      assert (P : oneLine (replace (url r) RE_MD_EXT [])).
      { intros H. now apply replace_empty_In in H. }
      destruct (eqb (trim (title r)) noteName);
        repeat apply oneLine_app; try assumption; not_in_literal.
    + destruct (truthy (url r)); assumption.
  - apply (detailLine_isDetail (getTypeInfo_In _) (getStatusInfo_In _) Hs).
Qed.

(* ================================================================= *)
(** ** Insertion into the section *)

(** The loop of [insertLine] steps over a run of spans and stops. *)
Lemma skipReferences_run (spans : list (list jsstring))
    (post : list jsstring) (n : nat) :
  Forall isSpan spans -> closesRun post ->
  skipReferences (List.concat spans ++ post) n
  = (n + List.length (List.concat spans))%nat.
Proof.
  intros Hs Hp. revert n. induction Hs as [|sp spans Hsp Hs IH]; intros n.
  - cbn [List.concat app List.length]. rewrite Nat.add_0_r.
    destruct post as [|l post]; [reflexivity|].
    cbn [skipReferences]. unfold closesRun in Hp. now rewrite Hp.
  - destruct Hsp as (h & d & -> & [Hh _] & (Hd & Hd' & _)).
    cbn [List.concat app skipReferences]. rewrite Hh, Hd.
    apply eqb_neq in Hd'. rewrite Hd'. cbn [negb andb].
    rewrite IH. cbn [List.length]. lia.
Qed.

Lemma encodedLines_span (v : vault) (r : ReferenceData) :
  validRecord r ->
  exists h d, buildLine v r = Ok (h ++ NL :: d)
              /\ encodedLines v r = [h; d] /\ isHeader h /\ isDetail d.
Proof.
  intros H. destruct (buildLine_span v H) as (h & d & E & Hh & Hd).
  exists h, d. repeat split; try assumption; try apply Hh; try apply Hd.
  unfold encodedLines. rewrite E. rewrite split_app.
  rewrite !split_free; [reflexivity|apply Hd|apply Hh].
Qed.

Section Insertion.

Variable v : vault.
Variables (pre : list jsstring) (heading : jsstring) (post : list jsstring).
Hypothesis pre_plain :
  Forall (fun l => oneLine l /\ test RE_REFERENCES l = false) pre.
Hypothesis heading_line :
  oneLine heading /\ test RE_REFERENCES heading = true.
Hypothesis post_lines : Forall oneLine post.
Hypothesis post_closes : closesRun post.

Lemma span_lines (spans : list (list jsstring)) :
  Forall isSpan spans -> Forall oneLine (List.concat spans).
Proof.
  induction 1 as [|sp spans (h & d & -> & [_ Hh] & (_ & _ & Hd)) _ IH];
    [constructor|].
  cbn [List.concat app]. now repeat constructor.
Qed.

Lemma section_lines (spans : list (list jsstring)) :
  Forall isSpan spans ->
  linesOf (sectionDoc pre heading post spans) = pre ++ heading :: List.concat spans ++ post.
Proof.
  intros Hs. apply linesOf_join; [now destruct pre|].
  apply Forall_app. split.
  - eapply Forall_impl; [|exact pre_plain]. now intros l [H _].
  - constructor; [apply heading_line|].
    apply Forall_app. split; [now apply span_lines|exact post_lines].
Qed.

Lemma insertLine_section (spans : list (list jsstring)) (cur : nat)
    (r : ReferenceData) :
  Forall isSpan spans -> validRecord r ->
  insertLine v (MkEditor (sectionDoc pre heading post spans) cur) r
  = (MkEditor (sectionDoc pre heading post (spans ++ [encodedLines v r])) cur, Ok tt)
  /\ isSpan (encodedLines v r).
Proof.
  intros Hs Hr.
  destruct (encodedLines_span v Hr) as (h & d & Eb & El & Hh & Hd).
  assert (Sp : isSpan (encodedLines v r)) by (rewrite El; now exists h, d).
  split; [|exact Sp].
  unfold insertLine. cbn [value].
  assert (T : test RE_REFERENCES (sectionDoc pre heading post spans) = true).
  { apply line_matches_doc with (l := heading); [|apply heading_line].
    rewrite section_lines by assumption. apply in_or_app. right. now left. }
  rewrite T. cbn [negb value].
  rewrite section_lines by assumption.
  unfold findIndex. rewrite findIndexFrom_first;
    [| |apply heading_line].
  2:{ intros a Ha. rewrite Forall_forall in pre_plain.
      now apply pre_plain. }
  replace (Z.to_nat (0 + Z.of_nat (List.length pre) + 1))
    with (List.length (pre ++ [heading]))
    by (rewrite length_app; cbn [List.length]; lia).
  replace (pre ++ heading :: List.concat spans ++ post)
    with ((pre ++ [heading]) ++ List.concat spans ++ post)
    by (now rewrite <- app_assoc).
  rewrite skipn_exact.
  rewrite skipReferences_run by assumption.
  rewrite <- length_app.
  rewrite Eb. unfold splice, setValue. cbn [value cursorLine].
  rewrite (app_assoc (pre ++ [heading]) (List.concat spans) post).
  rewrite firstn_exact, skipn_exact.
  f_equal. f_equal. unfold sectionDoc. f_equal.
  fold (encodedLines v r) in El.
  assert (El' : split NL (h ++ NL :: d) = [h; d]).
  { unfold encodedLines in El. now rewrite Eb in El. }
  rewrite El', El. rewrite concat_app. cbn [List.concat].
  rewrite app_nil_r. rewrite <- !app_assoc. reflexivity.
Qed.


End Insertion.


(* ================================================================= *)
(** ** The section editor *)

(** C2. [delete-reference] with the cursor on the header of a record
    followed by its detail line and a further line removes the header line
    only: the detail line stays and becomes line 0.  With the cursor on
    the detail line the command refuses and changes nothing. *)
Theorem delete_removes_header_only :
  linesOf threeLineNote
  = [introHeader; introDetail; utf16 "Next paragraph"]
  /\ deleteReference (MkEditor threeLineNote 0)
     = MkEditor (introDetail ++ [NL] ++ utf16 "Next paragraph") 0
  /\ linesOf (value (deleteReference (MkEditor threeLineNote 0)))
     = [introDetail; utf16 "Next paragraph"]
  /\ deleteReference (MkEditor threeLineNote 1) = MkEditor threeLineNote 1.
Proof. repeat split. Qed.

(** [cycle-ref-status] on a line that passes its placement check writes
    back what [advanceStatus] makes of that line. *)
Lemma cycleRefStatus_on_reference (editor : Editor) :
  onReferenceLine (getLine editor (cursorLine editor)) = true ->
  cycleRefStatus editor
  = (line' <- advanceStatus (getLine editor (cursorLine editor)) ;;
     Ok (setLine editor (cursorLine editor) line')).
Proof. intros H. unfold cycleRefStatus. now rewrite H. Qed.

(** C8, as the code has it.  On a text without [## References] and a valid
    record, [insertLine] completes normally and leaves the text followed
    by a line break, the heading, a line break, the two lines of the
    record and a last line break: the heading is a new line directly below
    the former last line, the record span is directly below the heading,
    and an empty line ends the text. *)
Theorem insertLine_heals (v : vault) (editor : Editor)
    (data : ReferenceData) :
  test RE_REFERENCES (value editor) = false -> validRecord data ->
  exists h d,
    encodedLines v data = [h; d]
    /\ insertLine v editor data
       = (MkEditor (value editor ++ [NL] ++ headingText ++ [NL]
                    ++ h ++ [NL] ++ d ++ [NL]) (cursorLine editor), Ok tt)
    /\ linesOf (value (fst (insertLine v editor data)))
       = linesOf (value editor) ++ [headingText; h; d; []].
Proof.
  intros Hno Hr.
  destruct (encodedLines_span v Hr) as (h & d & Eb & El & _ & _).
  destruct (insertLine_appends_heading v editor data Hno Eb) as [E L].
  exists h, d. split; [exact El|]. split.
  - rewrite E. now rewrite <- !app_assoc.
  - rewrite L. unfold encodedLines in El. rewrite Eb in El.
    unfold linesOf at 2. now rewrite El.
Qed.

Lemma insertLine_heals_witness :
  exists h d,
    encodedLines noVault introToRust = [h; d]
    /\ insertLine noVault (MkEditor (utf16 "Notes") 0) introToRust
       = (MkEditor (utf16 "Notes" ++ [NL] ++ headingText ++ [NL]
                    ++ h ++ [NL] ++ d ++ [NL]) 0, Ok tt)
    /\ linesOf (value (fst (insertLine noVault (MkEditor (utf16 "Notes") 0)
                                       introToRust)))
       = linesOf (utf16 "Notes") ++ [headingText; h; d; []].
Proof.
  refine (@insertLine_heals noVault (MkEditor (utf16 "Notes") 0)
            introToRust _ _).
  - reflexivity.
  - repeat split; try not_in_literal; vm_compute; discriminate.
Defined.

(** C8, as stated, fails on the one-line note [Notes]: it has no
    [## References], and after the insertion the heading is line 1,
    directly below [Notes]; no line holding the heading has a blank line
    before it. *)
Lemma heading_not_after_blank :
  test RE_REFERENCES (utf16 "Notes") = false
  /\ linesOf (value (fst (insertLine noVault (MkEditor (utf16 "Notes") 0)
                                     introToRust)))
     = [utf16 "Notes"; headingText; introHeader; introDetail; []]
  /\ headingAfterBlank
       (linesOf (value (fst (insertLine noVault (MkEditor (utf16 "Notes") 0)
                                        introToRust)))) = false.
Proof. repeat split. Qed.



(* ================================================================= *)
(** ** The rating text, the catalogues and the two lines of a record *)

Lemma starString_below (n : Z) :
  (n < 0)%Z -> starString n = Throw RangeError.
Proof.
  intros H. unfold starString.
  destruct (Z.eqb_spec n 0) as [->|_]; [lia|].
  unfold JS.repeat.
  destruct (Z.ltb_spec n 0); [reflexivity|lia].
Qed.

(** X1. [starString] returns a text exactly for the ratings 0 to 5 and
    raises a RangeError exactly for the others.  The text it returns holds
    as many filled stars as the rating says; for a rating other than 0 it is
    five glyphs long, the others being empty stars. *)
Theorem starString_domain (n : Z) :
  ((0 <= n <= 5)%Z <-> exists g, starString n = Ok g)
  /\ ((n < 0 \/ 5 < n)%Z <-> starString n = Throw RangeError)
  /\ (forall g, starString n = Ok g ->
        countMatches FILLED g = n
        /\ (n <> 0%Z -> List.length g = 5%nat
                        /\ countMatches HOLLOW g = (5 - n)%Z)).
Proof.
  assert (Hin : (0 <= n <= 5)%Z ->
                n = 0%Z \/ n = 1%Z \/ n = 2%Z \/ n = 3%Z \/ n = 4%Z \/ n = 5%Z)
    by lia.
  split; [|split].
  - split.
    + intros H. exists (ratingGlyphs n). now apply starString_valid.
    + intros [g Hg].
      destruct (Z.ltb_spec n 0) as [Hl|Hl];
        [rewrite starString_below in Hg by assumption; discriminate|].
      destruct (Z.ltb_spec 5 n) as [Hu|Hu];
        [rewrite starString_above in Hg by assumption; discriminate|lia].
  - split.
    + intros [H|H]; [now apply starString_below|now apply starString_above].
    + intros H.
      destruct (Z.ltb_spec n 0) as [Hl|Hl]; [now left|].
      destruct (Z.ltb_spec 5 n) as [Hu|Hu]; [now right|].
      rewrite starString_valid in H by lia. discriminate.
  - intros g Hg.
    assert (R : (0 <= n <= 5)%Z).
    { destruct (Z.ltb_spec n 0) as [Hl|Hl];
        [rewrite starString_below in Hg by assumption; discriminate|].
      destruct (Z.ltb_spec 5 n) as [Hu|Hu];
        [rewrite starString_above in Hg by assumption; discriminate|lia]. }
    rewrite starString_valid in Hg by assumption. injection Hg as <-.
    destruct (Hin R) as [->|[->|[->|[->|[->| ->]]]]];
      (split; [reflexivity|intros Hn; split; (reflexivity || congruence)]).
Qed.

(** X2. The rating written by [starString] is read back: on a line of
    four fields whose last one is the text for a rating in 0..5, the decoder
    finds that rating. *)
Theorem rating_round_trip (a b c : jsstring) (n : Z) :
  ~ In BAR a -> ~ In BAR b -> ~ In BAR c -> (0 <= n <= 5)%Z ->
  exists g, starString n = Ok g
  /\ stars (decodeRecord (a ++ BAR :: b ++ BAR :: c ++ BAR :: 32%N :: g)) = n.
Proof.
  intros Ha Hb Hc Hn. exists (ratingGlyphs n).
  split; [now apply starString_valid|].
  rewrite decode_stars. unfold ratingField.
  assert (Hg : ~ In BAR (32%N :: ratingGlyphs n)).
  { assert (n = 0 \/ n = 1 \/ n = 2 \/ n = 3 \/ n = 4 \/ n = 5)%Z
      as [->|[->|[->|[->|[->| ->]]]]] by lia; not_in_literal. }
  rewrite fieldsOf_four by assumption. cbn [nth_error].
  rewrite countMatches_trim by reflexivity.
  assert (n = 0 \/ n = 1 \/ n = 2 \/ n = 3 \/ n = 4 \/ n = 5)%Z
    as [->|[->|[->|[->|[->| ->]]]]] by lia; reflexivity.
Qed.

Lemma rating_round_trip_witness :
  exists g, starString 3 = Ok g
  /\ stars (decodeRecord (utf16 "### Paper " ++ BAR :: utf16 " 🎥 Video "
             ++ BAR :: utf16 " ✅ **Completed** " ++ BAR :: 32%N :: g)) = 3%Z.
Proof.
  refine (@rating_round_trip (utf16 "### Paper ") (utf16 " 🎥 Video ")
            (utf16 " ✅ **Completed** ") 3 _ _ _ _);
    try not_in_literal. lia.
Defined.

Lemma find_none (A : Type) (p : A -> bool) (l : list A) :
  (forall x, In x l -> p x = false) -> find p l = None.
Proof.
  induction l as [|x l IH]; intros H; [reflexivity|]. cbn.
  rewrite (H x) by now left. apply IH. intros y Hy. apply H. now right.
Qed.

(** X3. [getTypeInfo] and [getStatusInfo] return the catalogue entry of a
    catalogue key, and the first entry of their catalogue for any other
    key. *)
Theorem lookup_by_key :
  (forall t, In t TYPE_OPTIONS -> getTypeInfo (key t) = t)
  /\ (forall s, In s STATUS_ORDER -> getStatusInfo (key s) = s)
  /\ (forall k, (forall t, In t TYPE_OPTIONS -> key t <> k) ->
        getTypeInfo k = first TYPE_OPTIONS)
  /\ (forall k, (forall s, In s STATUS_ORDER -> key s <> k) ->
        getStatusInfo k = first STATUS_ORDER).
Proof.
  split; [|split; [|split]].
  - intros t H. repeat (destruct H as [<-|H]; [reflexivity|]). destruct H.
  - intros t H. repeat (destruct H as [<-|H]; [reflexivity|]). destruct H.
  - intros k H. unfold getTypeInfo. rewrite find_none; [reflexivity|].
    intros t Ht. apply eqb_neq. now apply H.
  - intros k H. unfold getStatusInfo. rewrite find_none; [reflexivity|].
    intros t Ht. apply eqb_neq. now apply H.
Qed.

Lemma buildLine_detail (v : vault) (r : ReferenceData) :
  validRecord r ->
  exists link,
    buildLine v r
    = Ok ((utf16 "### " ++ link) ++ NL
          :: detailLine (getTypeInfo (type r)) (getStatusInfo (status r))
                        (ratingGlyphs (stars r)))
    /\ oneLine link.
Proof.
  intros (Ht & Hu & Hs). unfold buildLine.
  rewrite starString_valid by assumption. cbn [bind].
  match goal with
  | |- context [utf16 "### " ++ ?link ++ [NL] ++ ?rest] => exists link
  end.
  split; [now rewrite <- app_assoc|].
  assert (L : oneLine (utf16 "[" ++ title r ++ utf16 "](" ++ url r ++ utf16 ")")).
  { repeat apply oneLine_app; try assumption; not_in_literal. }
  destruct (eqb (type r) (utf16 "plain-note") && truthy (url r)).
  + destruct (v (url r)) as [[noteName|]|]; try exact L.
    assert (P : oneLine (replace (url r) RE_MD_EXT [])).
    { intros H. now apply replace_empty_In in H. }
    destruct (eqb (trim (title r)) noteName);
      repeat apply oneLine_app; try assumption; not_in_literal.
  + destruct (truthy (url r)); assumption.
Qed.

(** X4. For a one-line title, a one-line target and a rating in 0..5,
    [buildLine] returns exactly two lines: a header that starts with
    [### ], and a detail line that is not blank and does not start with
    [###]. *)
Theorem buildLine_two_lines (v : vault) (r : ReferenceData) :
  validRecord r ->
  exists h d,
    buildLine v r = Ok (h ++ NL :: d)
    /\ split NL (h ++ NL :: d) = [h; d]
    /\ startsWith h (utf16 "### ") = true
    /\ startsWith d (utf16 "###") = false /\ trim d <> [].
Proof.
  intros H. destruct (buildLine_detail v H) as (link & E & Hl).
  pose proof (detailLine_isDetail (getTypeInfo_In (type r))
                (getStatusInfo_In (status r)) (proj2 (proj2 H))) as Hd.
  exists (utf16 "### " ++ link),
         (detailLine (getTypeInfo (type r)) (getStatusInfo (status r))
                     (ratingGlyphs (stars r))).
  split; [exact E|]. split; [|split; [apply startsWith_app|split; apply Hd]].
  rewrite split_app, !split_free; [reflexivity|apply Hd|].
  apply oneLine_app; [not_in_literal|exact Hl].
Qed.

Lemma buildLine_two_lines_witness :
  exists h d,
    buildLine noVault introToRust = Ok (h ++ NL :: d)
    /\ split NL (h ++ NL :: d) = [h; d]
    /\ startsWith h (utf16 "### ") = true
    /\ startsWith d (utf16 "###") = false /\ trim d <> [].
Proof.
  refine (@buildLine_two_lines noVault introToRust _).
  repeat split; try not_in_literal; vm_compute; discriminate.
Defined.

(* ================================================================= *)
(** ** Deleting, and a rating out of range *)

Lemma getLine_middle (A B : list jsstring) (b : jsstring) (cur : nat) :
  Forall oneLine A -> oneLine b -> Forall oneLine B ->
  getLine (MkEditor (join [NL] (A ++ b :: B)) cur) (List.length A) = b.
Proof.
  intros HA Hb HB. unfold getLine. cbn [value].
  rewrite linesOf_join;
    [|now destruct A|apply Forall_app; split; [assumption|now constructor]].
  apply nth_middle.
Qed.

Lemma deleteRecord_last (A : list jsstring) (b : jsstring) (cur : nat) :
  Forall oneLine A -> oneLine b ->
  deleteRecord (MkEditor (join [NL] (A ++ [b])) cur) (List.length A)
  = MkEditor (join [NL] (A ++ [[]])) cur.
Proof.
  intros HA Hb.
  unfold deleteRecord, replaceRange, posToOffset. cbn [value cursorLine].
  rewrite linesOf_join;
    [|now destruct A|apply Forall_app; split; [assumption|now constructor]].
  rewrite length_app. cbn [List.length].
  destruct (Nat.leb_spec (List.length A + 1) (List.length A)); [lia|].
  destruct (Nat.leb_spec (List.length A + 1) (List.length A + 1)); [|lia].
  rewrite skipn_all, !Nat.min_0_l, !Nat.add_0_r.
  rewrite firstn_exact.
  rewrite !join_concat by discriminate.
  rewrite firstn_exact. reflexivity.
Qed.

(** X5. [delete-reference] with the cursor on the line [b] between the
    lines [A] and [B].  Off a reference line the document is left as it is.
    On a reference line that line alone goes, the lines below it staying;
    when it is the last line of the document, an empty last line takes its
    place. *)
Theorem deleteReference_lines (A B : list jsstring) (b : jsstring) :
  Forall oneLine A -> oneLine b -> Forall oneLine B ->
  let editor := MkEditor (join [NL] (A ++ b :: B)) (List.length A) in
  (onReferenceLine b = false -> deleteReference editor = editor)
  /\ (onReferenceLine b = true -> B <> [] ->
      deleteReference editor
      = MkEditor (join [NL] (A ++ B)) (List.length A))
  /\ (onReferenceLine b = true -> B = [] ->
      deleteReference editor
      = MkEditor (join [NL] (A ++ [[]])) (List.length A)).
Proof.
  intros HA Hb HB editor.
  assert (G : getLine editor (cursorLine editor) = b)
    by now apply getLine_middle.
  unfold deleteReference. rewrite G.
  split; [|split].
  - intros ->. reflexivity.
  - intros -> HB0. cbn [negb]. now apply deleteRecord_lines.
  - intros -> ->. cbn [negb]. now apply deleteRecord_last.
Qed.

Lemma deleteReference_lines_witness :
  deleteReference (MkEditor (join [NL] ([utf16 "# Rust"]
                     ++ introHeader :: [introDetail; utf16 "Notes"])) 1)
  = MkEditor (join [NL] ([utf16 "# Rust"] ++ [introDetail; utf16 "Notes"])) 1.
Proof.
  refine (proj1 (proj2 (@deleteReference_lines [utf16 "# Rust"]
            [introDetail; utf16 "Notes"] introHeader _ _ _)) _ _).
  - repeat constructor; not_in_literal.
  - not_in_literal.
  - repeat constructor; not_in_literal.
  - reflexivity.
  - discriminate.
Defined.

Lemma append_at_end (editor : Editor) (text : jsstring) :
  replaceRange editor text ((lastLine editor + 1)%nat, 0%nat)
                           ((lastLine editor + 1)%nat, 0%nat)
  = MkEditor (value editor ++ text) (cursorLine editor).
Proof.
  unfold replaceRange, posToOffset, lastLine.
  assert (L : (List.length (linesOf (value editor))
               <=? List.length (linesOf (value editor)) - 1 + 1)%nat = true).
  { apply Nat.leb_le. lia. }
  rewrite L. now rewrite firstn_all, skipn_all, app_nil_r.
Qed.

Lemma buildLine_out_of_range (v : vault) (data : ReferenceData) :
  (stars data < 0 \/ 5 < stars data)%Z ->
  buildLine v data = Throw RangeError.
Proof.
  intros H. apply buildLine_throws.
  destruct H; [now apply starString_below|now apply starString_above].
Qed.

Lemma insertLine_out_of_range (v : vault) (editor : Editor)
    (data : ReferenceData) :
  (stars data < 0 \/ 5 < stars data)%Z ->
  insertLine v editor data
  = (if test RE_REFERENCES (value editor) then editor
     else MkEditor (value editor ++ NL :: headingText ++ [NL])
                   (cursorLine editor),
     Throw RangeError).
Proof.
  intros H. unfold insertLine.
  rewrite append_at_end.
  rewrite (buildLine_out_of_range v data H).
  destruct (test RE_REFERENCES (value editor)); reflexivity.
Qed.

(* ================================================================= *)
(** ** Insertion keeps the lines of the document *)

Lemma first_line_prefix (p r : jsstring) :
  ~ In NL p -> exists w ws, split NL (p ++ r) = (p ++ w) :: ws.
Proof.
  induction p as [|c p IH]; intros H.
  - cbn [app]. destruct (split NL r) as [|w ws] eqn:E.
    + now destruct (split_not_nil NL r).
    + now exists w, ws.
  - cbn [app split].
    destruct (N.eqb_spec c NL) as [->|_]; [elim H; now left|].
    destruct IH as (w & ws & ->); [intros Hin; apply H; now right|].
    now exists w, ws.
Qed.

Lemma includes_cons (c : code) (s p : jsstring) :
  includes s p = true -> includes (c :: s) p = true.
Proof. intros H. cbn [includes]. rewrite H. apply orb_true_r. Qed.

Lemma some_line_includes (s p : jsstring) :
  ~ In NL p -> includes s p = true ->
  exists l, In l (split NL s) /\ includes l p = true.
Proof.
  intros Hp. induction s as [|c s IH]; intros H.
  - exists []. split; [now left|exact H].
  - cbn [includes] in H. apply orb_true_iff in H as [H|H].
    + apply startsWith_spec in H as [r E]. rewrite E.
      destruct (@first_line_prefix p r Hp) as (w & ws & ->).
      exists (p ++ w). split; [now left|].
      apply includes_here, startsWith_app.
    + destruct (IH H) as (l & Hl & Hi). cbn [split].
      destruct (N.eqb c NL).
      * exists l. split; [now right|exact Hi].
      * destruct (split NL s) as [|w ws]; [destruct Hl|].
        destruct Hl as [<-|Hl].
        -- exists (c :: w). split; [now left|now apply includes_cons].
        -- exists l. split; [now right|exact Hi].
Qed.

Lemma first_match (A : Type) (p : A -> bool) (l : list A) (x : A) :
  In x l -> p x = true ->
  exists pre y post, l = pre ++ y :: post
                     /\ (forall a, In a pre -> p a = false) /\ p y = true.
Proof.
  induction l as [|a l IH]; intros Hin Hx; [destruct Hin|].
  destruct (p a) eqn:E.
  - exists [], a, l. repeat split; [intros ? []|exact E].
  - destruct Hin as [->|Hin]; [congruence|].
    destruct (IH Hin Hx) as (pre & y & post & -> & Hpre & Hy).
    exists (a :: pre), y, post. repeat split; [|exact Hy].
    intros b [<-|Hb]; [exact E|now apply Hpre].
Qed.

Lemma skipReferences_bounds (ls : list jsstring) :
  forall n, (n <= skipReferences ls n <= n + List.length ls)%nat.
Proof.
  induction ls as [ls IH] using (well_founded_induction
    (Wf_nat.well_founded_ltof _ (@List.length jsstring))).
  intros n. destruct ls as [|l r]; [cbn; lia|].
  cbn [skipReferences List.length].
  destruct (startsWith l (utf16 "###")); [|lia].
  destruct r as [|l' r']; [lia|].
  destruct (negb (startsWith l' (utf16 "###")) && negb (eqb (trim l') [])).
  - assert (H := IH r' ltac:(unfold Wf_nat.ltof; cbn; lia) (n + 2)%nat).
    cbn [List.length]. lia.
  - assert (H := IH (l' :: r') ltac:(unfold Wf_nat.ltof; cbn; lia)
                 (n + 1)%nat).
    cbn [List.length] in *. lia.
Qed.

(** X6. [insertLine] keeps every line of the document, in order, the
    heading having been appended when it was missing: the lines of the built
    text are put between two of them, below the first line that contains the
    heading text. *)
Theorem insertLine_keeps_lines (v : vault) (editor : Editor)
    (data : ReferenceData) (built : jsstring) :
  buildLine v data = Ok built ->
  let doc := if test RE_REFERENCES (value editor) then value editor
             else value editor ++ NL :: headingText ++ [NL] in
  exists pre heading run post,
    linesOf doc = pre ++ heading :: run ++ post
    /\ (forall l, In l pre -> test RE_REFERENCES l = false)
    /\ test RE_REFERENCES heading = true
    /\ insertLine v editor data
       = (MkEditor (join [NL] (pre ++ heading :: run ++ linesOf built
                               ++ post)) (cursorLine editor), Ok tt).
Proof.
  intros Hb doc.
  assert (T : test RE_REFERENCES doc = true).
  { subst doc. destruct (test RE_REFERENCES (value editor)) eqn:E;
      [exact E|].
    unfold RE_REFERENCES. rewrite test_lit. apply includes_spec.
    exists (value editor ++ [NL]), [NL]. now rewrite <- !app_assoc. }
  assert (M : exists l, In l (linesOf doc) /\ test RE_REFERENCES l = true).
  { unfold RE_REFERENCES in *. rewrite test_lit in T.
    destruct (@some_line_includes doc (utf16 "## References")) as (l & Hl & Hi);
      [not_in_literal|exact T|].
    exists l. split; [exact Hl|now rewrite test_lit]. }
  destruct M as (l & Hl & Ht).
  destruct (@first_match _ (test RE_REFERENCES) _ _ Hl Ht)
    as (pre & heading & rest & EL & Hpre & Hh).
  pose proof (skipReferences_bounds rest (List.length pre + 1)) as Bd.
  set (p := skipReferences rest (List.length pre + 1)) in *.
  exists pre, heading, (firstn (p - (List.length pre + 1)) rest),
         (skipn (p - (List.length pre + 1)) rest).
  split; [now rewrite firstn_skipn|]. split; [exact Hpre|].
  split; [exact Hh|].
  unfold insertLine. rewrite append_at_end.
  assert (Ed : value (if negb (test RE_REFERENCES (value editor))
                      then MkEditor (value editor
                             ++ NL :: utf16 "## References" ++ [NL])
                             (cursorLine editor)
                      else editor) = doc).
  { subst doc. now destruct (test RE_REFERENCES (value editor)). }
  assert (Ec : cursorLine (if negb (test RE_REFERENCES (value editor))
                      then MkEditor (value editor
                             ++ NL :: utf16 "## References" ++ [NL])
                             (cursorLine editor)
                      else editor) = cursorLine editor).
  { now destruct (test RE_REFERENCES (value editor)). }
  rewrite Ed, EL, Hb. unfold setValue. rewrite Ec.
  unfold findIndex. rewrite findIndexFrom_first by assumption.
  replace (Z.to_nat (0 + Z.of_nat (List.length pre) + 1))
    with (List.length (pre ++ [heading]))
    by (rewrite length_app; cbn [List.length]; lia).
  replace (pre ++ heading :: rest) with ((pre ++ [heading]) ++ rest)
    by (now rewrite <- app_assoc).
  rewrite skipn_exact.
  replace (List.length (pre ++ [heading])) with (List.length pre + 1)%nat
    by (rewrite length_app; reflexivity).
  fold p. unfold splice.
  f_equal. f_equal. f_equal.
  replace p with (List.length (pre ++ [heading])
                  + (p - (List.length pre + 1)))%nat at 1 2
    by (rewrite length_app; cbn [List.length]; lia).
  rewrite firstn_app_2, skipn_app.
  rewrite skipn_all2 by lia.
  replace (List.length (pre ++ [heading]) + (p - (List.length pre + 1))
           - List.length (pre ++ [heading]))%nat
    with (p - (List.length pre + 1))%nat by lia.
  cbn [app]. rewrite <- !app_assoc. reflexivity.
Qed.

Lemma insertLine_keeps_lines_witness :
  let editor := MkEditor threeLineNote 0 in
  let doc := if test RE_REFERENCES (value editor) then value editor
             else value editor ++ NL :: headingText ++ [NL] in
  exists pre heading run post,
    linesOf doc = pre ++ heading :: run ++ post
    /\ (forall l, In l pre -> test RE_REFERENCES l = false)
    /\ test RE_REFERENCES heading = true
    /\ insertLine noVault editor introToRust
       = (MkEditor (join [NL] (pre ++ heading :: run
                               ++ linesOf (introHeader ++ [NL] ++ introDetail)
                               ++ post)) (cursorLine editor), Ok tt).
Proof.
  refine (@insertLine_keeps_lines noVault (MkEditor threeLineNote 0)
            introToRust (introHeader ++ [NL] ++ introDetail) _).
  reflexivity.
Defined.

(* ================================================================= *)
(** ** The status rewrite on any line *)

Lemma findIndexFrom_range (A : Type) (p : A -> bool) (l : list A) (i : Z) :
  findIndexFrom p l i = (-1)%Z
  \/ (i <= findIndexFrom p l i < i + Z.of_nat (List.length l))%Z.
Proof.
  revert i. induction l as [|x l IH]; intros i; [now left|].
  cbn [findIndexFrom List.length]. destruct (p x); [right; lia|].
  destruct (IH (i + 1)%Z) as [->|H]; [now left|right; lia].
Qed.

Lemma next_in_range (line : jsstring) :
  exists next, at_ STATUS_ORDER (nextIdx line) = Some next
               /\ In next STATUS_ORDER.
Proof.
  unfold nextIdx.
  assert (R : (-1 <= currIdx line < 7)%Z).
  { unfold currIdx, findIndex.
    destruct (findIndexFrom_range
                (fun s => includes line (wrapped (label s))) STATUS_ORDER 0)
      as [->|H]; [lia|]. cbn [List.length STATUS_ORDER] in H. lia. }
  assert (C : currIdx line = (-1)%Z \/ currIdx line = 0%Z
              \/ currIdx line = 1%Z \/ currIdx line = 2%Z
              \/ currIdx line = 3%Z \/ currIdx line = 4%Z
              \/ currIdx line = 5%Z \/ currIdx line = 6%Z) by lia.
  destruct C as [->|[->|[->|[->|[->|[->|[->| ->]]]]]]];
    (eexists; split; [reflexivity|cbn; tauto]).
Qed.

Lemma rep_growsBefore (g : bool) (p : code -> bool) (k : cont) :
  growsBefore k ->
  forall rs bf cs st, rep g p k bf rs cs = Some st ->
                      exists x, before st = x ++ bf.
Proof.
  intros Hk. induction rs as [|c rs IH]; intros bf cs st H; cbn [rep] in H.
  - now apply Hk in H.
  - destruct (p c); [|now apply Hk in H].
    assert (S1 : forall st, rep g p k (c :: bf) rs cs = Some st ->
                            exists x, before st = x ++ bf).
    { intros st' H'. apply IH in H' as [x ->]. exists (x ++ [c]).
      now rewrite <- app_assoc. }
    destruct g.
    + destruct (rep true p k (c :: bf) rs cs) eqn:E.
      * injection H as <-. now apply S1.
      * now apply Hk in H.
    + destruct (k (MState bf (c :: rs) cs)) eqn:E.
      * injection H as <-. now apply Hk in E.
      * now apply S1.
Qed.

Lemma m_growsBefore (r : re) :
  forall k, growsBefore k -> growsBefore (m r k).
Proof.
  induction r as [|p|a IHa b IHb|g p|g p|i a IHa|a IHa| |];
    intros k Hk st st' H.
  - now apply Hk.
  - destruct st as [bf [|c rs] cs]; cbn in H; [discriminate|].
    destruct (p c); [|discriminate]. apply Hk in H as [x ->].
    exists (x ++ [c]). cbn. now rewrite <- app_assoc.
  - cbn [m] in H. exact (IHa (m b k) (IHb k Hk) _ _ H).
  - destruct st as [bf rs cs]. cbn [m before rest caps] in H.
    now apply (@rep_growsBefore _ _ _ Hk) in H.
  - destruct st as [bf [|c rs] cs]; cbn in H; [discriminate|].
    destruct (p c); [|discriminate].
    apply (@rep_growsBefore _ _ _ Hk) in H as [x ->].
    exists (x ++ [c]). cbn. now rewrite <- app_assoc.
  - cbn [m] in H. refine (IHa _ _ _ _ H).
    intros x y Hxy. apply Hk in Hxy. exact Hxy.
  - cbn [m] in H. destruct (m a k st) eqn:E.
    + injection H as <-. exact (IHa k Hk _ _ E).
    + now apply Hk.
  - cbn [m] in H. destruct (before st) eqn:B; [|discriminate].
    rewrite <- B. now apply Hk.
  - cbn [m] in H. destruct (rest st); [now apply Hk|discriminate].
Qed.

Lemma search_start (r : re) :
  forall rs bf bf' st, search r bf rs = Some (bf', st) ->
  exists x, before st = x ++ bf'.
Proof.
  assert (K : growsBefore Some).
  { intros a b [= <-]. now exists []. }
  induction rs as [|c rs IH]; intros bf bf' st H; cbn [search] in H.
  - destruct (m r Some (MState bf [] [])) eqn:E; [|discriminate].
    injection H as <- <-. exact (m_growsBefore r K _ E).
  - destruct (m r Some (MState bf (c :: rs) [])) eqn:E.
    + injection H as <- <-. exact (m_growsBefore r K _ E).
    + now apply IH in H.
Qed.

(** A match splits the text in three. *)
Lemma exec_splits (r : re) (s : jsstring) (f : found) :
  exec r s = Some f -> s = prefix f ++ matched f ++ suffix f.
Proof.
  unfold exec. destruct (search r [] s) as [[bf st]|] eqn:E; [|discriminate].
  intros [= <-]. cbn [prefix matched suffix].
  destruct (search_start _ _ _ E) as [x Hx].
  apply search_text in E as (T & _).
  rewrite Hx. rewrite length_app, Nat.add_sub, firstn_exact.
  unfold textOf in T. rewrite Hx, rev_app_distr in T. cbn [rev app] in T.
  now rewrite <- T, <- app_assoc.
Qed.

Lemma no_bar_no_span (line : jsstring) :
  ~ In BAR line -> exec RE_STATUS_SPAN line = None.
Proof.
  intros H. unfold exec, RE_STATUS_SPAN, cat. cbn [fold_right].
  rewrite <- (app_nil_r line) at 1.
  match goal with |- context [search (Seq _ ?r) _ _] =>
    rewrite (@search_skip r line [] [] H) end.
  reflexivity.
Qed.

Lemma advanceStatus_no_bar (line : jsstring) :
  ~ In BAR line -> advanceStatus line = Ok line.
Proof.
  intros H. destruct (next_in_range line) as (next & E & _).
  unfold advanceStatus, replace. now rewrite E, no_bar_no_span.
Qed.

(** X7. The status rewrite completes normally on every line and changes at
    most one stretch of it: either no status span is found and the line is
    returned as it is, or the line is returned with one stretch replaced by
    the span of a catalogue status, the text before and after it kept.  A
    line without a bar is returned as it is. *)
Theorem advanceStatus_total (line : jsstring) :
  exists next, In next STATUS_ORDER
  /\ ((exec RE_STATUS_SPAN line = None /\ advanceStatus line = Ok line)
      \/ exists pre span post,
           line = pre ++ span ++ post
           /\ advanceStatus line = Ok (pre ++ statusSpan next ++ post))
  /\ (~ In BAR line -> advanceStatus line = Ok line).
Proof.
  destruct (next_in_range line) as (next & E & Hn).
  exists next. split; [exact Hn|].
  split; [|apply advanceStatus_no_bar].
  unfold advanceStatus. rewrite E. unfold replace.
  destruct (exec RE_STATUS_SPAN line) as [f|] eqn:X.
  - right. exists (prefix f), (matched f), (suffix f).
    split; [exact (@exec_splits _ _ _ X)|reflexivity].
  - left. now split.
Qed.

Lemma setNth_same (ls : list jsstring) :
  forall n, setNth n (nth n ls []) ls = ls.
Proof.
  induction ls as [|l ls IH]; intros [|n]; cbn; try reflexivity.
  now rewrite IH.
Qed.

(** X8. [cycle-ref-status] leaves the document as it is when the cursor
    line is not a reference line, and when it holds no bar. *)
Theorem cycleRefStatus_no_effect (editor : Editor) :
  onReferenceLine (getLine editor (cursorLine editor)) = false
  \/ ~ In BAR (getLine editor (cursorLine editor)) ->
  cycleRefStatus editor
  = Ok (MkEditor (value editor) (cursorLine editor)).
Proof.
  intros H. unfold cycleRefStatus.
  destruct (onReferenceLine (getLine editor (cursorLine editor))) eqn:E.
  - destruct H as [H|H]; [discriminate|]. cbn [negb].
    rewrite (@advanceStatus_no_bar _ H). cbn [bind].
    unfold setLine, getLine. rewrite setNth_same.
    unfold linesOf. now rewrite join_split.
  - cbn [negb]. now destruct editor.
Qed.

Lemma cycleRefStatus_no_effect_witness :
  let editor := MkEditor (introHeader ++ [NL] ++ introDetail) 1 in
  cycleRefStatus editor = Ok (MkEditor (value editor) (cursorLine editor)).
Proof.
  intros editor. refine (@cycleRefStatus_no_effect editor _).
  left. reflexivity.
Defined.

(* ================================================================= *)
(** ** Replacing a record *)

Lemma setNth_middle (A B : list jsstring) (b x : jsstring) :
  setNth (List.length A) x (A ++ b :: B) = A ++ x :: B.
Proof. induction A as [|a A IH]; cbn; [reflexivity|now rewrite IH]. Qed.

Lemma lines_oneLine (A B : list jsstring) (b : jsstring) :
  Forall oneLine A -> oneLine b -> Forall oneLine B ->
  Forall oneLine (A ++ b :: B).
Proof. intros. apply Forall_app. split; [assumption|now constructor]. Qed.

Lemma setLine_middle (A B : list jsstring) (b x : jsstring) (cur : nat) :
  Forall oneLine A -> oneLine b -> Forall oneLine B ->
  setLine (MkEditor (join [NL] (A ++ b :: B)) cur) (List.length A) x
  = MkEditor (join [NL] (A ++ x :: B)) cur.
Proof.
  intros HA Hb HB. unfold setLine. cbn [value cursorLine].
  rewrite linesOf_join; [|now destruct A|now apply lines_oneLine].
  now rewrite setNth_middle.
Qed.

Lemma insert_at_line_end (A B : list jsstring) (h d : jsstring)
    (cur big : nat) :
  Forall oneLine A -> oneLine h -> Forall oneLine B ->
  (List.length h <= big)%nat ->
  replaceRange (MkEditor (join [NL] (A ++ h :: B)) cur) (NL :: d)
    (List.length A, big) (List.length A, big)
  = MkEditor (join [NL] (A ++ h :: d :: B)) cur.
Proof.
  intros HA Hh HB Hlen.
  unfold replaceRange, posToOffset. cbn [value cursorLine].
  rewrite linesOf_join; [|now destruct A|now apply lines_oneLine].
  rewrite length_app. cbn [List.length].
  destruct (Nat.leb_spec (List.length A + S (List.length B)) (List.length A));
    [lia|].
  rewrite firstn_exact, nth_middle.
  rewrite Nat.min_r by exact Hlen.
  rewrite !join_concat by discriminate.
  set (X := List.concat (map (fun l => l ++ [NL]) A)).
  f_equal.
  destruct B as [|b B].
  - cbn [join]. rewrite <- length_app.
    rewrite firstn_all, skipn_all. cbn [app].
    rewrite ?app_nil_r, <- ?app_assoc. reflexivity.
  - rewrite (join_cons [NL] h (ls := b :: B)) by discriminate.
    rewrite <- length_app.
    rewrite (app_assoc X h). rewrite firstn_exact, skipn_exact.
    rewrite (join_cons [NL] h (ls := d :: b :: B)) by discriminate.
    rewrite (join_cons [NL] d (ls := b :: B)) by discriminate.
    rewrite <- !app_assoc. reflexivity.
Qed.

Lemma getLine_next (A B : list jsstring) (b : jsstring) (cur : nat) :
  Forall oneLine A -> oneLine b -> Forall oneLine B ->
  getLine (MkEditor (join [NL] (A ++ b :: B)) cur) (List.length A + 1)
  = hd [] B.
Proof.
  intros HA Hb HB. unfold getLine. cbn [value].
  rewrite linesOf_join; [|now destruct A|now apply lines_oneLine].
  replace (A ++ b :: B) with ((A ++ [b]) ++ B) by (now rewrite <- app_assoc).
  replace (List.length A + 1)%nat with (List.length (A ++ [b]))
    by (rewrite length_app; reflexivity).
  rewrite app_nth2, Nat.sub_diag by lia. now destruct B.
Qed.

Lemma replaceLine_at (v : vault) (A B : list jsstring) (b : jsstring)
    (cur : nat) (r : ReferenceData) (h d : jsstring) :
  Forall oneLine A -> oneLine b -> Forall oneLine B ->
  buildLine v r = Ok (h ++ NL :: d) -> oneLine h -> oneLine d ->
  (takesDetail (hd [] B) = true ->
   replaceLine v (MkEditor (join [NL] (A ++ b :: B)) cur) (List.length A) r
   = (MkEditor (join [NL] (A ++ h :: d :: tl B)) cur, Ok tt))
  /\ (takesDetail (hd [] B) = false ->
      (List.length h <= MAX_SAFE_INTEGER)%nat ->
      replaceLine v (MkEditor (join [NL] (A ++ b :: B)) cur) (List.length A) r
      = (MkEditor (join [NL] (A ++ h :: d :: B)) cur, Ok tt)).
Proof.
  intros HA Hb HB Eb Hh Hd.
  assert (Sp : split NL (h ++ NL :: d) = [h; d]).
  { rewrite split_app, !split_free by assumption. reflexivity. }
  unfold replaceLine. rewrite Eb, Sp. cbn [nth nth_error].
  rewrite setLine_middle by assumption.
  rewrite getLine_next by assumption.
  split.
  - intros T. rewrite T.
    destruct B as [|b' B]; [discriminate T|]. cbn [hd tl] in *.
    replace (A ++ h :: b' :: B) with ((A ++ [h]) ++ b' :: B)
      by (now rewrite <- app_assoc).
    replace (List.length A + 1)%nat with (List.length (A ++ [h]))
      by (rewrite length_app; reflexivity).
    inversion HB; subst.
    rewrite setLine_middle;
      [|apply Forall_app; split; [assumption|now constructor]
       |assumption|assumption].
    now rewrite <- app_assoc.
  - intros T Hlen. rewrite T.
    now rewrite insert_at_line_end.
Qed.

Lemma span_of_valid (v : vault) (r : ReferenceData) :
  validRecord r ->
  exists h d, buildLine v r = Ok (h ++ NL :: d)
              /\ encodedLines v r = [h; d]
              /\ oneLine h /\ oneLine d /\ takesDetail d = true.
Proof.
  intros H. destruct (encodedLines_span v H) as (h & d & E & El & Hh & Hd).
  exists h, d. repeat split; try assumption; try apply Hh; try apply Hd.
  destruct Hd as (Hs & Ht & _). unfold takesDetail. rewrite Hs.
  destruct d; [now elim Ht|reflexivity].
Qed.

(** X9. [replaceLine] at the line [b] between the lines [A] and [B], for
    a valid record: the header is written over [b]; the detail is written
    over the line below when that line is not empty and not a header, and
    is put in as a new line below the header otherwise. *)
Theorem replaceLine_lines (v : vault) (A B : list jsstring) (b : jsstring)
    (cur : nat) (r : ReferenceData) :
  Forall oneLine A -> oneLine b -> Forall oneLine B -> validRecord r ->
  let editor := MkEditor (join [NL] (A ++ b :: B)) cur in
  exists h d,
    encodedLines v r = [h; d]
    /\ (takesDetail (hd [] B) = true ->
        replaceLine v editor (List.length A) r
        = (MkEditor (join [NL] (A ++ h :: d :: tl B)) cur, Ok tt))
    /\ (takesDetail (hd [] B) = false ->
        (List.length h <= MAX_SAFE_INTEGER)%nat ->
        replaceLine v editor (List.length A) r
        = (MkEditor (join [NL] (A ++ h :: d :: B)) cur, Ok tt)).
Proof.
  intros HA Hb HB Hr editor.
  destruct (span_of_valid v Hr) as (h & d & Eb & El & Hh & Hd & _).
  exists h, d. split; [exact El|].
  now apply replaceLine_at.
Qed.

Lemma replaceLine_lines_witness :
  exists h d,
    encodedLines noVault rustBook = [h; d]
    /\ (takesDetail (hd [] [introDetail; utf16 "Notes"]) = true ->
        replaceLine noVault
          (MkEditor (join [NL] ([utf16 "# Rust"]
                       ++ introHeader :: [introDetail; utf16 "Notes"])) 1)
          (List.length [utf16 "# Rust"]) rustBook
        = (MkEditor (join [NL] ([utf16 "# Rust"]
                       ++ h :: d :: tl [introDetail; utf16 "Notes"])) 1,
           Ok tt))
    /\ (takesDetail (hd [] [introDetail; utf16 "Notes"]) = false ->
        (List.length h <= MAX_SAFE_INTEGER)%nat ->
        replaceLine noVault
          (MkEditor (join [NL] ([utf16 "# Rust"]
                       ++ introHeader :: [introDetail; utf16 "Notes"])) 1)
          (List.length [utf16 "# Rust"]) rustBook
        = (MkEditor (join [NL] ([utf16 "# Rust"]
                       ++ h :: d :: [introDetail; utf16 "Notes"])) 1,
           Ok tt)).
Proof.
  refine (@replaceLine_lines noVault [utf16 "# Rust"]
            [introDetail; utf16 "Notes"] introHeader 1 rustBook _ _ _ _).
  - repeat constructor; not_in_literal.
  - not_in_literal.
  - repeat constructor; not_in_literal.
  - repeat split; try not_in_literal; vm_compute; discriminate.
Defined.

(** X10. [replaceLine] completes normally for a valid record, and
    replacing a second time, at the same line with the same record, changes
    nothing more. *)
Theorem replaceLine_idempotent (v : vault) (A B : list jsstring)
    (b : jsstring) (cur : nat) (r : ReferenceData) :
  Forall oneLine A -> oneLine b -> Forall oneLine B -> validRecord r ->
  (forall h, nth_error (encodedLines v r) 0 = Some h ->
             (List.length h <= MAX_SAFE_INTEGER)%nat) ->
  let once :=
    replaceLine v (MkEditor (join [NL] (A ++ b :: B)) cur)
                (List.length A) r in
  snd once = Ok tt
  /\ replaceLine v (fst once) (List.length A) r = once.
Proof.
  intros HA Hb HB Hr Hlen once.
  destruct (span_of_valid v Hr) as (h & d & Eb & El & Hh & Hd & Td).
  assert (Hl : (List.length h <= MAX_SAFE_INTEGER)%nat)
    by (apply Hlen; now rewrite El).
  destruct (@replaceLine_at v A B b cur r h d HA Hb HB Eb Hh Hd) as [R1 R2].
  assert (E : exists B', Forall oneLine B'
              /\ once = (MkEditor (join [NL] (A ++ h :: d :: B')) cur, Ok tt)).
  { destruct (takesDetail (hd [] B)) eqn:T.
    - exists (tl B). split; [|now apply R1].
      destruct B; [constructor|now inversion HB].
    - exists B. split; [assumption|now apply R2]. }
  destruct E as (B' & HB' & E). rewrite E. cbn [fst snd].
  split; [reflexivity|].
  destruct (@replaceLine_at v A (d :: B') h cur r h d HA Hh
              ltac:(now constructor) Eb Hh Hd) as [R _].
  now apply R.
Qed.

Lemma replaceLine_idempotent_witness :
  replaceLine noVault
    (fst (replaceLine noVault
            (MkEditor (join [NL] ([utf16 "# Rust"]
                         ++ introHeader :: [[]; utf16 "Notes"])) 1)
            (List.length [utf16 "# Rust"]) rustBook))
    (List.length [utf16 "# Rust"]) rustBook
  = replaceLine noVault
      (MkEditor (join [NL] ([utf16 "# Rust"]
                   ++ introHeader :: [[]; utf16 "Notes"])) 1)
      (List.length [utf16 "# Rust"]) rustBook.
Proof.
  refine (proj2 (@replaceLine_idempotent noVault [utf16 "# Rust"]
            [[]; utf16 "Notes"] introHeader 1 rustBook _ _ _ _ _)).
  - repeat constructor; not_in_literal.
  - not_in_literal.
  - repeat constructor; not_in_literal.
  - repeat split; try not_in_literal; vm_compute; discriminate.
  - intros h H. vm_compute in H. injection H as <-.
    cbn [List.length]. unfold MAX_SAFE_INTEGER. lia.
Defined.

(** X11. Submitting a form whose rating is outside 0..5 raises a
    RangeError and writes no record: when a record is edited the document is
    left as it is; when one is added the heading has been appended if it
    was missing. *)
Theorem submit_out_of_range (v : vault) (editor : Editor) (f : Form)
    (lineNum : nat) :
  (currentRating f < 0 \/ 5 < currentRating f)%Z ->
  submit v editor (Some lineNum) f = (editor, Throw RangeError)
  /\ submit v editor None f
     = (if test RE_REFERENCES (value editor) then editor
        else MkEditor (value editor ++ NL :: headingText ++ [NL])
                      (cursorLine editor),
        Throw RangeError).
Proof.
  intros H. unfold submit. split.
  - unfold replaceLine. now rewrite buildLine_out_of_range.
  - now apply insertLine_out_of_range.
Qed.

Lemma submit_out_of_range_witness :
  submit noVault (MkEditor (utf16 "Notes") 0) (Some 0%nat)
         (prefill (Some sixStars))
  = (MkEditor (utf16 "Notes") 0, Throw RangeError)
  /\ submit noVault (MkEditor (utf16 "Notes") 0) None
            (prefill (Some sixStars))
     = (if test RE_REFERENCES (value (MkEditor (utf16 "Notes") 0))
        then MkEditor (utf16 "Notes") 0
        else MkEditor (value (MkEditor (utf16 "Notes") 0)
                       ++ NL :: headingText ++ [NL])
                      (cursorLine (MkEditor (utf16 "Notes") 0)),
        Throw RangeError).
Proof.
  refine (@submit_out_of_range noVault (MkEditor (utf16 "Notes") 0)
            (prefill (Some sixStars)) 0 _).
  right. vm_compute. reflexivity.
Defined.

(* ================================================================= *)
(** ** Reading a header back *)

(** [trim] on texts with no white space at their ends. *)

Lemma trimmed_trim (s : jsstring) : trimmed s -> trim s = s.
Proof.
  intros [H1 H2]. unfold trim. now rewrite H1, H2, rev_involutive.
Qed.

Lemma dropWhile_head (p : code -> bool) (c : code) (s : jsstring) :
  p c = false -> dropWhile p (c :: s) = c :: s.
Proof. intros H. cbn. now rewrite H. Qed.

Lemma dropWhile_app (p : code -> bool) (a b : jsstring) :
  a <> [] -> dropWhile p a = a -> dropWhile p (a ++ b) = a ++ b.
Proof.
  destruct a as [|c a]; [congruence|]. intros _ H. cbn in *.
  destruct (p c) eqn:E; [|reflexivity].
  exfalso. assert (L : List.length (dropWhile p a) = S (List.length a))
    by now rewrite H.
  assert (B : forall s, (List.length (dropWhile p s) <= List.length s)%nat).
  { induction s as [|x s IH]; [cbn; lia|]. cbn.
    destruct (p x); cbn; lia. }
  specialize (B a). lia.
Qed.

Lemma trimmed_between (c d : code) (s : jsstring) :
  isSpace c = false -> isSpace d = false -> trimmed (c :: s ++ [d]).
Proof.
  intros Hc Hd. split; [now apply dropWhile_head|].
  change (c :: s ++ [d]) with ((c :: s) ++ [d]).
  rewrite rev_app_distr. cbn [rev app]. now apply dropWhile_head.
Qed.

Lemma trimmed_after (a s : jsstring) (c : code) :
  isSpace c = false -> trimmed s -> s <> [] -> trimmed (c :: a ++ s).
Proof.
  intros Hc [_ H2] Hs. split; [now apply dropWhile_head|].
  change (c :: a ++ s) with ((c :: a) ++ s).
  rewrite rev_app_distr. apply dropWhile_app; [|exact H2].
  intros E. apply Hs. apply (f_equal (@rev code)) in E.
  now rewrite rev_involutive in E.
Qed.

(** The matcher on the patterns that open with a literal code unit. *)

Lemma search_skip_chr (c : code) (r : re) (pre s bf : jsstring) :
  ~ In c pre ->
  search (Seq (Chr (chr c)) r) bf (pre ++ s)
  = search (Seq (Chr (chr c)) r) (rev pre ++ bf) s.
Proof.
  revert bf. induction pre as [|x pre IH]; intros bf H; [reflexivity|].
  cbn [app search m rest before caps].
  destruct (chr c x) eqn:E.
  - apply N.eqb_eq in E. elim H. now left.
  - rewrite IH by (intros Hin; apply H; now right).
    cbn [rev]. now rewrite <- app_assoc.
Qed.

Lemma search_none_chr (c : code) (r : re) (s bf : jsstring) :
  ~ In c s -> search (Seq (Chr (chr c)) r) bf s = None.
Proof.
  intros H. rewrite <- (app_nil_r s). now rewrite search_skip_chr.
Qed.

Lemma m_group (i : nat) (a : re) (k : cont) (st : mstate) :
  m (Group i a) k st = m a (fun st' => k (capture i st st')) st.
Proof. reflexivity. Qed.

Lemma m_star (g : bool) (p : code -> bool) (k : cont) (bf rs : jsstring)
    (cs : list (nat * jsstring)) :
  m (Star g p) k (MState bf rs cs) = rep g p k bf rs cs.
Proof. reflexivity. Qed.

Lemma capture_run (i : nat) (t bf rs rs' : jsstring)
    (cs cs' : list (nat * jsstring)) :
  capture i (MState bf rs cs) (MState (rev t ++ bf) rs' cs')
  = MState (rev t ++ bf) rs' ((i, t) :: cs').
Proof.
  unfold capture. cbn [before rest caps].
  rewrite length_app, Nat.add_sub.
  now rewrite firstn_exact, rev_involutive.
Qed.

Lemma link_at (bf T U post : jsstring) :
  T <> [] -> Forall (fun c => isnt RBRACK c = true) T ->
  Forall (fun c => dot c = true) U -> ~ In RPAR U ->
  m RE_LINK Some
    (MState bf (LBRACK :: T ++ RBRACK :: LPAR :: U ++ RPAR :: post) [])
  = Some (MState (RPAR :: rev U ++ LPAR :: RBRACK :: rev T ++ LBRACK :: bf)
                 post [(2%nat, U); (1%nat, T)]).
Proof.
  intros HT0 HT HU HUr.
  destruct T as [|t T]; [congruence|].
  inversion HT as [|? ? Ht HT']; subst.
  unfold RE_LINK, cat. cbn [fold_right].
  rewrite m_seq, m_chr by reflexivity.
  rewrite m_seq, m_group. cbn [app].
  rewrite m_plus by exact Ht.
  apply rep_greedy_run with (tok := T); [exact HT'|reflexivity|].
  replace (rev T ++ t :: LBRACK :: bf)
    with (rev (t :: T) ++ LBRACK :: bf)
    by (cbn [rev]; now rewrite <- app_assoc).
  rewrite capture_run.
  rewrite m_seq, m_chr by reflexivity.
  rewrite m_seq, m_chr by reflexivity.
  rewrite m_seq, m_group, m_star.
  apply rep_lazy_run with (body := U); [exact HU| |].
  - intros [|c t'] u b E Hne; [congruence|].
    cbn [app]. apply m_chr_miss.
    unfold chr. destruct (N.eqb_spec RPAR c) as [<-|]; [|reflexivity].
    elim HUr. rewrite E. apply in_or_app. right. now left.
  - rewrite capture_run.
    rewrite m_seq, m_chr by reflexivity. cbn [m].
    cbn [rev]. rewrite <- ?app_assoc. reflexivity.
Qed.

Lemma exec_link_header (T U : jsstring) :
  T <> [] -> ~ In LBRACK T -> ~ In RBRACK T ->
  Forall (fun c => dot c = true) U -> ~ In RPAR U ->
  exists f, exec RE_LINK (linkHeader T U) = Some f
            /\ cap 1 f = T /\ cap 2 f = U.
Proof.
  intros HT0 HTl HTr HU HUr. unfold exec, linkHeader.
  change (utf16 "### [") with (utf16 "### " ++ [LBRACK]).
  change (utf16 "](") with [RBRACK; LPAR]. change (utf16 ")") with [RPAR].
  rewrite <- !app_assoc. cbn [app].
  unfold RE_LINK at 1, cat. cbn [fold_right].
  rewrite search_skip_chr by not_in_literal.
  cbn [search].
  assert (F : Forall (fun c => isnt RBRACK c = true) T).
  { apply Forall_forall. intros c Hc. unfold isnt.
    destruct (N.eqb_spec RBRACK c) as [<-|]; [contradiction|reflexivity]. }
  pose proof (@link_at (rev (utf16 "### ") ++ []) T U [] HT0 F HU HUr) as E.
  unfold RE_LINK, cat in E. cbn [fold_right] in E. rewrite E.
  eexists. split; [reflexivity|]. split; reflexivity.
Qed.

Lemma exec_internal_none_link (T U : jsstring) :
  T <> [] -> ~ In LBRACK T -> ~ In LBRACK U ->
  exec RE_INTERNAL_LINK (linkHeader T U) = None.
Proof.
  intros HT0 HT HU. unfold exec, linkHeader.
  change (utf16 "### [") with (utf16 "### " ++ [LBRACK]).
  rewrite <- !app_assoc. cbn [app].
  unfold RE_INTERNAL_LINK, cat. cbn [fold_right].
  rewrite search_skip_chr by not_in_literal.
  destruct T as [|t T]; [congruence|].
  cbn [app search m rest before caps].
  change (chr LBRACK LBRACK) with true. cbn iota.
  destruct (chr LBRACK t) eqn:E.
  { apply N.eqb_eq in E. elim HT. now left. }
  rewrite search_none_chr; [reflexivity|].
  intros H. apply in_app_or in H as [H|H]; [apply HT; now right|].
  apply in_app_or in H as [H|H]; [revert H; not_in_literal|].
  apply in_app_or in H as [H|H]; [tauto|revert H; not_in_literal].
Qed.

Lemma exec_none_no_bracket (r : re) (s : jsstring) :
  ~ In LBRACK s -> exec (Seq (Chr (chr LBRACK)) r) s = None.
Proof. intros H. unfold exec. now rewrite search_none_chr. Qed.

Lemma heading_mark_strip (sp T : jsstring) :
  Forall (fun c => isSpace c = true) sp -> dropWhile isSpace T = T ->
  replace ([HASH; HASH; HASH] ++ sp ++ T) RE_HEADING_MARK [] = T.
Proof.
  intros Hsp HT. unfold replace, exec, RE_HEADING_MARK, cat.
  cbn [fold_right app search].
  assert (E : m (Seq Bol (Seq (Chr (chr HASH)) (Seq (Chr (chr HASH))
                 (Seq (Chr (chr HASH)) (Seq (Star true isSpace) Eps)))))
                Some (MState [] (HASH :: HASH :: HASH :: sp ++ T) [])
              = Some (MState (rev sp ++ [HASH; HASH; HASH]) T [])).
  { cbn [m before rest caps]. change (chr HASH HASH) with true. cbn iota.
    apply rep_greedy_run with (tok := sp); [exact Hsp| |reflexivity].
    destruct T as [|t T]; [exact I|]. cbn in HT.
    destruct (isSpace t) eqn:X; [|reflexivity]. exfalso.
    assert (B : forall s, (List.length (dropWhile isSpace s)
                           <= List.length s)%nat).
    { induction s as [|x s IH]; [cbn; lia|]. cbn.
      destruct (isSpace x); cbn; lia. }
    specialize (B T). rewrite HT in B. cbn in B. lia. }
  rewrite E. reflexivity.
Qed.

Lemma decode_inputs (line : jsstring) :
  line <> [] ->
  title (decodeRecord line)
  = trim (titleInput (prefillTitleUrl (fieldsOf line) freshForm))
  /\ url (decodeRecord line)
     = trim (urlInput (prefillTitleUrl (fieldsOf line) freshForm)).
Proof.
  unfold decodeRecord, submitData. cbn [title url].
  destruct line as [|c line]; [congruence|]. intros _.
  unfold prefill. cbn [truthy]. fold (fieldsOf (c :: line)).
  set (parts := fieldsOf (c :: line)).
  destruct (prefillRating_frame parts
    (prefillStatus parts (prefillType parts (prefillTitleUrl parts freshForm))))
    as (-> & -> & _).
  destruct (prefillStatus_frame parts
    (prefillType parts (prefillTitleUrl parts freshForm)))
    as (-> & -> & _).
  destruct (prefillType_frame parts (prefillTitleUrl parts freshForm))
    as (-> & -> & _).
  split; reflexivity.
Qed.

Lemma buildLine_markdown (v : vault) (r : ReferenceData) :
  notesLink v r = false ->
  buildLine v r =
  rating <- starString (stars r) ;;
  Ok (utf16 "### "
      ++ (if truthy (url r)
          then utf16 "[" ++ title r ++ utf16 "](" ++ url r ++ utf16 ")"
          else title r)
      ++ [NL]
      ++ detailLine (getTypeInfo (type r)) (getStatusInfo (status r)) rating).
Proof.
  unfold notesLink, buildLine, detailLine. intros H.
  destruct (eqb (type r) (utf16 "plain-note")); cbn [andb] in *;
    [|reflexivity].
  destruct (truthy (url r)); cbn [andb] in *; [|reflexivity].
  destruct (v (url r)) as [[n|]|]; [discriminate|reflexivity|reflexivity].
Qed.

Lemma decode_link_header (T U : jsstring) :
  T <> [] -> trimmed T -> trimmed U ->
  ~ In BAR T -> ~ In LBRACK T -> ~ In RBRACK T ->
  ~ In BAR U -> ~ In LBRACK U -> ~ In RPAR U ->
  Forall (fun c => dot c = true) U ->
  title (decodeRecord (linkHeader T U)) = T
  /\ url (decodeRecord (linkHeader T U)) = U.
Proof.
  intros HT0 HTt HUt HTb HTl HTr HUb HUl HUr HUd.
  assert (F : fieldsOf (linkHeader T U) = [linkHeader T U]).
  { unfold fieldsOf. rewrite split_free.
    - cbn [map]. f_equal. apply trimmed_trim.
      replace (linkHeader T U)
        with (HASH :: (utf16 "## [" ++ T ++ utf16 "](" ++ U) ++ [RPAR])
        by (unfold linkHeader; rewrite <- !app_assoc; reflexivity).
      apply trimmed_between; reflexivity.
    - unfold linkHeader. intros H.
      apply in_app_or in H as [H|H]; [revert H; not_in_literal|].
      apply in_app_or in H as [H|H]; [tauto|].
      apply in_app_or in H as [H|H]; [revert H; not_in_literal|].
      apply in_app_or in H as [H|H]; [tauto|revert H; not_in_literal]. }
  destruct (@decode_inputs (linkHeader T U)) as [Et Eu].
  { unfold linkHeader. discriminate. }
  rewrite Et, Eu, F. unfold prefillTitleUrl.
  rewrite exec_internal_none_link by assumption.
  destruct (@exec_link_header T U HT0 HTl HTr HUd HUr) as (f & -> & -> & ->).
  cbn [titleInput urlInput]. split; now apply trimmed_trim.
Qed.

Lemma decode_bare_header (T : jsstring) :
  trimmed T -> ~ In BAR T -> ~ In LBRACK T ->
  title (decodeRecord (utf16 "### " ++ T)) = T
  /\ url (decodeRecord (utf16 "### " ++ T)) = [].
Proof.
  intros HTt HTb HTl.
  destruct (@decode_inputs (utf16 "### " ++ T)) as [Et Eu]; [discriminate|].
  rewrite Et, Eu. unfold fieldsOf. rewrite split_free.
  2:{ intros H. apply in_app_or in H as [H|H];
        [revert H; not_in_literal|tauto]. }
  cbn [map]. unfold prefillTitleUrl.
  assert (N : ~ In LBRACK (trim (utf16 "### " ++ T))).
  { destruct T as [|t T].
    - vm_compute. intuition discriminate.
    - rewrite trimmed_trim.
      + intros H. apply in_app_or in H as [H|H];
          [revert H; not_in_literal|tauto].
      + change (utf16 "### " ++ t :: T) with (HASH :: utf16 "## " ++ t :: T).
        apply trimmed_after; [reflexivity|exact HTt|discriminate]. }
  unfold RE_INTERNAL_LINK, RE_LINK, cat. cbn [fold_right].
  rewrite !exec_none_no_bracket by exact N.
  cbn [titleInput urlInput freshForm]. split; [|reflexivity].
  assert (S : replace (trim (utf16 "### " ++ T)) RE_HEADING_MARK [] = T).
  { destruct T as [|t T]; [reflexivity|].
    rewrite trimmed_trim.
    - change (utf16 "### " ++ t :: T)
        with ([HASH; HASH; HASH] ++ [32%N] ++ t :: T).
      apply heading_mark_strip; [repeat constructor|apply HTt].
    - change (utf16 "### " ++ t :: T) with (HASH :: utf16 "## " ++ t :: T).
      apply trimmed_after; [reflexivity|exact HTt|discriminate]. }
  rewrite S. now apply trimmed_trim.
Qed.

Lemma dropWhile_suffix (p : code -> bool) (a b : jsstring) :
  dropWhile p b = b -> exists x, dropWhile p (a ++ b) = x ++ b.
Proof.
  intros H. induction a as [|c a [x IH]]; [now exists []|].
  cbn. destruct (p c); [now exists x|now exists (c :: a)].
Qed.

Lemma header_on_reference (h : jsstring) :
  startsWith h (utf16 "###") = true -> onReferenceLine h = true.
Proof.
  intros H. apply startsWith_spec in H as [t ->].
  unfold onReferenceLine, trim.
  change (dropWhile isSpace (utf16 "###" ++ t)) with (utf16 "###" ++ t).
  rewrite rev_app_distr.
  destruct (@dropWhile_suffix isSpace (rev t) (rev (utf16 "###")))
    as [x ->]; [reflexivity|].
  rewrite rev_app_distr, rev_involutive. apply startsWith_app.
Qed.

Lemma detail_off_reference (t s : info) (n : Z) :
  In t TYPE_OPTIONS -> In s STATUS_ORDER -> (0 <= n <= 5)%Z ->
  onReferenceLine (detailLine t s (ratingGlyphs n)) = false.
Proof.
  intros Ht Hs Hn.
  assert (All : forallb (fun t => forallb (fun s => forallb (fun n =>
            negb (onReferenceLine (detailLine t s (ratingGlyphs n))))
            [0; 1; 2; 3; 4; 5]%Z) STATUS_ORDER) TYPE_OPTIONS = true)
    by (vm_compute; reflexivity).
  rewrite forallb_forall in All. specialize (All t Ht).
  rewrite forallb_forall in All. specialize (All s Hs).
  rewrite forallb_forall in All. apply negb_true_iff, All.
  cbn. lia.
Qed.

Lemma decode_single_field (line : jsstring) :
  ~ In BAR line ->
  type (decodeRecord line) = utf16 "plain-note"
  /\ status (decodeRecord line) = utf16 "saved"
  /\ stars (decodeRecord line) = 0%Z.
Proof.
  intros H. rewrite decode_type, decode_status, decode_stars.
  unfold typeIconToken, statusLabelText, ratingField, fieldsOf.
  rewrite split_free by exact H. repeat split.
Qed.

Lemma markdownLink_plain (r : ReferenceData) :
  linkSafe r ->
  ~ In BAR (utf16 "### "
            ++ (if truthy (url r)
                then utf16 "[" ++ title r ++ utf16 "](" ++ url r ++ utf16 ")"
                else title r)).
Proof.
  intros (_ & _ & Htb & _ & _ & Hub & _) H.
  apply in_app_or in H as [H|H]; [revert H; not_in_literal|].
  destruct (truthy (url r)); [|tauto].
  apply in_app_or in H as [H|H]; [revert H; not_in_literal|].
  apply in_app_or in H as [H|H]; [tauto|].
  apply in_app_or in H as [H|H]; [revert H; not_in_literal|].
  apply in_app_or in H as [H|H]; [tauto|revert H; not_in_literal].
Qed.

Lemma decode_built_header (v : vault) (r : ReferenceData) :
  validRecord r -> notesLink v r = false -> linkSafe r ->
  exists h,
    buildLine v r
    = Ok (h ++ NL :: detailLine (getTypeInfo (type r))
                       (getStatusInfo (status r)) (ratingGlyphs (stars r)))
    /\ startsWith h (utf16 "###") = true /\ oneLine h /\ ~ In BAR h
    /\ decodeRecord h
       = Data (utf16 "plain-note") (title r) (url r) (utf16 "saved") 0.
Proof.
  intros Hv Hn Hs.
  pose proof (@markdownLink_plain _ Hs) as Hb.
  destruct Hs as (Ht & Hu & Htb & Htl & Htr & Hub & Hul & Hur & Hud & Hne).
  eexists. split; [|split; [|split; [|split; [exact Hb|]]]].
  - rewrite (buildLine_markdown v r Hn).
    rewrite starString_valid by apply Hv. cbn [bind].
    rewrite app_assoc. reflexivity.
  - apply (startsWith_app (utf16 "###")).
  - destruct Hv as (Ho1 & Ho2 & _). unfold oneLine in *.
    intros H. apply in_app_or in H as [H|H]; [revert H; not_in_literal|].
    destruct (truthy (url r)); [|tauto].
    apply in_app_or in H as [H|H]; [revert H; not_in_literal|].
    apply in_app_or in H as [H|H]; [tauto|].
    apply in_app_or in H as [H|H]; [revert H; not_in_literal|].
    apply in_app_or in H as [H|H]; [tauto|revert H; not_in_literal].
  - destruct (@decode_single_field _ Hb) as (E1 & E2 & E3).
    assert (E45 : title (decodeRecord (utf16 "### "
            ++ (if truthy (url r)
                then utf16 "[" ++ title r ++ utf16 "](" ++ url r ++ utf16 ")"
                else title r))) = title r
          /\ url (decodeRecord (utf16 "### "
            ++ (if truthy (url r)
                then utf16 "[" ++ title r ++ utf16 "](" ++ url r ++ utf16 ")"
                else title r))) = url r).
    { destruct (url r) as [|u U] eqn:EU; cbn [truthy].
      - now apply decode_bare_header.
      - rewrite <- EU in *. apply decode_link_header; try assumption.
        apply Hne. rewrite EU. discriminate. }
    destruct E45 as [E4 E5].
    destruct (decodeRecord _) as [ty ti ur st sr]. cbn in *.
    now subst.
Qed.






(* ================================================================= *)
(** ** The one-line layout *)









(* ================================================================= *)
(** ** Wiki links *)








(** Patterns that cannot match without a closing square bracket. *)










(* ================================================================= *)
(** ** The submit handler, the stars and the type detection *)

Lemma buildLine_completes (v : vault) (data : ReferenceData) :
  (exists built, buildLine v data = Ok built) <-> (0 <= stars data <= 5)%Z.
Proof.
  split.
  - intros [built E].
    destruct (Z.ltb_spec (stars data) 0) as [Hl|Hl];
      [rewrite buildLine_out_of_range in E by lia; discriminate|].
    destruct (Z.ltb_spec 5 (stars data)) as [Hu|Hu]; [|lia].
    rewrite buildLine_out_of_range in E by lia. discriminate.
  - intros H. unfold buildLine. rewrite starString_valid by exact H.
    cbn [bind]. eexists. reflexivity.
Qed.

Lemma submit_outcome (v : vault) (editor : Editor)
    (editLine : option nat) (f : Form) :
  snd (submit v editor editLine f)
  = match buildLine v (submitData f) with
    | Ok _ => Ok tt
    | Throw e => Throw e
    end.
Proof.
  unfold submit. destruct editLine as [lineNum|].
  - unfold replaceLine.
    destruct (buildLine v (submitData f)) as [built|e]; [|reflexivity].
    cbv zeta. destruct (nth_error (split NL built) 1); [|reflexivity].
    now destruct (takesDetail _).
  - unfold insertLine.
    now destruct (buildLine v (submitData f)) as [built|e].
Qed.

(** X17. The submit handler completes normally exactly when the rating of
    the form is in 0..5, whatever the title, the target, the document and
    the line edited: nothing else is checked. *)
Theorem submit_completes_iff (v : vault) (editor : Editor)
    (editLine : option nat) (f : Form) :
  snd (submit v editor editLine f) = Ok tt
  <-> (0 <= currentRating f <= 5)%Z.
Proof.
  change (currentRating f) with (stars (submitData f)).
  rewrite <- (buildLine_completes v (submitData f)), submit_outcome.
  destruct (buildLine v (submitData f)) as [built|e].
  - split; [intros _; now exists built|reflexivity].
  - split; [discriminate|intros [? ?]; discriminate].
Qed.

Lemma stars_closed (n : Z) :
  (1 <= n <= 5)%Z ->
  starString n = Ok (List.concat (fst (updateStarDisplay n None))).
Proof.
  intros H.
  assert (n = 1 \/ n = 2 \/ n = 3 \/ n = 4 \/ n = 5)%Z
    as [->|[->|[->|[-> | ->]]]] by lia; reflexivity.
Qed.

(** X18. What the modal shows is what is written, after a click: a click
    on one of the five stars sets a rating in 1..5, for which the five star
    elements show the text [starString] writes, and the submit that follows
    completes normally.  The display itself is clamped: for a rating of 5
    or more all five stars are filled, for 0 or less none is, and a rating
    under the pointer takes the place of the current one. *)
Theorem stars_shown_are_written (f : Form) (i : nat) :
  In i STAR_INDICES ->
  let f' := clickStar i f in
  (1 <= currentRating f' <= 5)%Z
  /\ starString (currentRating f')
     = Ok (List.concat (fst (updateStarDisplay (currentRating f') None)))
  /\ (forall v editor editLine, snd (submit v editor editLine f') = Ok tt)
  /\ (forall n, (5 <= n)%Z ->
        fst (updateStarDisplay n None) = List.repeat [FILLED] 5)
  /\ (forall n, (n <= 0)%Z ->
        fst (updateStarDisplay n None) = List.repeat [HOLLOW] 5)
  /\ (forall n h, updateStarDisplay n (Some h) = updateStarDisplay h None).
Proof.
  intros Hi f'.
  assert (R : (1 <= currentRating f' <= 5)%Z).
  { subst f'. cbn [clickStar currentRating].
    repeat (destruct Hi as [<-|Hi]; [cbn; lia|]). destruct Hi. }
  split; [exact R|]. split; [now apply stars_closed|].
  split.
  { intros v editor editLine. rewrite submit_outcome.
    destruct (proj2 (buildLine_completes v (submitData f'))) as [built ->];
      [cbn [submitData stars]; lia|reflexivity]. }
  split; [|split].
  - intros n Hn. unfold updateStarDisplay, STAR_INDICES. cbn [fst map].
    repeat match goal with
    | |- context [(Z.of_nat ?k <? n)%Z] =>
      destruct (Z.ltb_spec (Z.of_nat k) n); [|cbn in *; lia]
    end. reflexivity.
  - intros n Hn. unfold updateStarDisplay, STAR_INDICES. cbn [fst map].
    repeat match goal with
    | |- context [(Z.of_nat ?k <? n)%Z] =>
      destruct (Z.ltb_spec (Z.of_nat k) n); [cbn in *; lia|]
    end. reflexivity.
  - reflexivity.
Qed.

Lemma stars_shown_are_written_witness :
  let f' := clickStar 2 (prefill (Some sixStars)) in
  (1 <= currentRating f' <= 5)%Z
  /\ starString (currentRating f')
     = Ok (List.concat (fst (updateStarDisplay (currentRating f') None)))
  /\ (forall v editor editLine, snd (submit v editor editLine f') = Ok tt)
  /\ (forall n, (5 <= n)%Z ->
        fst (updateStarDisplay n None) = List.repeat [FILLED] 5)
  /\ (forall n, (n <= 0)%Z ->
        fst (updateStarDisplay n None) = List.repeat [HOLLOW] 5)
  /\ (forall n h, updateStarDisplay n (Some h) = updateStarDisplay h None).
Proof.
  refine (@stars_shown_are_written (prefill (Some sixStars)) 2 _).
  cbn. tauto.
Defined.

Lemma selectType_frame (f : Form) (k : jsstring) :
  selectType f k
  = MkForm k (titleInput f) (urlInput f) (statusSelect f) (currentRating f).
Proof.
  unfold selectType. destruct (eqb (typeSelect f) k) eqn:E; [|reflexivity].
  apply eqb_eq in E. subst k. now destruct f.
Qed.

(** X19. The type detection on the target, for every lower-casing
    function: it changes the type select at most, the type it selects is
    one of video, repository, course, textbook and web-page, each a key of
    the catalogue, and running it a second time changes nothing more. *)
Theorem url_detection_selects (toLowerCase : jsstring -> jsstring)
    (f : Form) :
  let f' := setupUrlTypeDetection toLowerCase f in
  titleInput f' = titleInput f /\ urlInput f' = urlInput f
  /\ statusSelect f' = statusSelect f /\ currentRating f' = currentRating f
  /\ (f' = f
      \/ In (typeSelect f')
            [utf16 "video"; utf16 "repository"; utf16 "course";
             utf16 "textbook"; utf16 "web-page"]
         /\ In (typeSelect f') (map key TYPE_OPTIONS))
  /\ setupUrlTypeDetection toLowerCase f' = f'.
Proof.
  intros f'. remember f' as g eqn:Eg. unfold f' in Eg. clear f'.
  assert (K : g = f \/ exists k,
                In k [utf16 "video"; utf16 "repository"; utf16 "course";
                      utf16 "textbook"; utf16 "web-page"]
                /\ g = selectType f k
                /\ setupUrlTypeDetection toLowerCase (selectType f k)
                   = selectType f k).
  { rewrite Eg. unfold setupUrlTypeDetection.
    set (url := toLowerCase (urlInput f)).
    assert (S : forall k, In k [utf16 "video"; utf16 "repository";
                  utf16 "course"; utf16 "textbook"; utf16 "web-page"] ->
              setupUrlTypeDetection toLowerCase (selectType f k)
              = selectType f k ->
              selectType f k = f \/ exists k',
                In k' [utf16 "video"; utf16 "repository"; utf16 "course";
                       utf16 "textbook"; utf16 "web-page"]
                /\ selectType f k = selectType f k'
                /\ setupUrlTypeDetection toLowerCase (selectType f k')
                   = selectType f k').
    { intros k Hk Hi. right. now exists k. }
    assert (U : forall k, toLowerCase (urlInput (selectType f k)) = url).
    { intros k. now rewrite selectType_frame. }
    destruct (includes url (utf16 "youtube.com")
              || includes url (utf16 "youtu.be")) eqn:C1.
    { apply S; [cbn; tauto|]. unfold setupUrlTypeDetection.
      rewrite U, C1. now rewrite !selectType_frame. }
    destruct (includes url (utf16 "github.com")
              || includes url (utf16 "gitlab.com")
              || includes url (utf16 "bitbucket.org")) eqn:C2.
    { apply S; [cbn; tauto|]. unfold setupUrlTypeDetection.
      rewrite U, C1, C2. now rewrite !selectType_frame. }
    destruct (includes url (utf16 "udemy.com")
              || includes url (utf16 "coursera.org")
              || includes url (utf16 "edx.org")
              || includes url (utf16 "skillshare.com")) eqn:C3.
    { apply S; [cbn; tauto|]. unfold setupUrlTypeDetection.
      rewrite U, C1, C2, C3. now rewrite !selectType_frame. }
    destruct (includes url (utf16 "amazon.com")
              || includes url (utf16 "goodreads.com")
              || includes url (utf16 "books.google.com")) eqn:C4.
    { apply S; [cbn; tauto|]. unfold setupUrlTypeDetection.
      rewrite U, C1, C2, C3, C4. now rewrite !selectType_frame. }
    destruct (startsWith url (utf16 "http")
              && negb (includes url (utf16 "youtube"))
              && negb (includes url (utf16 "github"))
              && negb (includes url (utf16 "udemy"))) eqn:C5.
    { apply S; [cbn; tauto|]. unfold setupUrlTypeDetection.
      rewrite U, C1, C2, C3, C4, C5. now rewrite !selectType_frame. }
    now left. }
  destruct K as [E|(k & Hk & E & I)].
  - subst g. rewrite E at 1 2 3 4 5.
    repeat split; try (now left).
    rewrite E at 1. now rewrite <- E.
  - rewrite E, selectType_frame in *.
    cbn [titleInput urlInput statusSelect currentRating typeSelect].
    repeat split; try exact I.
    right. split; [exact Hk|].
    repeat (destruct Hk as [<-|Hk]; [cbn; tauto|]). destruct Hk.
Qed.

(* ================================================================= *)
(** ** Commands one after the other *)

(** X20. Deleting the first record of the section and then adding a record:
    the detail line the deletion leaves behind ends the run of records
    directly below the heading, so the new record is put above it and above
    every older record, not below them. *)
Theorem delete_then_insert (v : vault) (pre : list jsstring)
    (heading : jsstring) (post : list jsstring) (h1 d1 : jsstring)
    (spans : list (list jsstring)) (r : ReferenceData) :
  Forall (fun l => oneLine l /\ test RE_REFERENCES l = false) pre ->
  oneLine heading /\ test RE_REFERENCES heading = true ->
  Forall oneLine post -> isHeader h1 -> isDetail d1 ->
  Forall isSpan spans -> validRecord r ->
  let editor := MkEditor (sectionDoc pre heading post ([h1; d1] :: spans))
                         (S (List.length pre)) in
  deleteReference editor
  = MkEditor (join [NL] (pre ++ heading :: d1 :: List.concat spans ++ post))
             (S (List.length pre))
  /\ insertLine v (deleteReference editor) r
     = (MkEditor (join [NL] (pre ++ heading :: encodedLines v r
                             ++ d1 :: List.concat spans ++ post))
                 (S (List.length pre)), Ok tt).
Proof.
  intros Hpre Hhd Hpost Hh1 Hd1 Hsp Hr editor.
  assert (Opre : Forall oneLine pre).
  { eapply Forall_impl; [|exact Hpre]. now intros a [? _]. }
  assert (OA : Forall oneLine (pre ++ [heading])).
  { apply Forall_app. split; [exact Opre|]. constructor; [apply Hhd|constructor]. }
  assert (OB : Forall oneLine (d1 :: List.concat spans ++ post)).
  { constructor; [apply Hd1|]. apply Forall_app. split; [|exact Hpost].
    now apply span_lines. }
  assert (Ed : editor = MkEditor
            (join [NL] ((pre ++ [heading])
                        ++ h1 :: d1 :: List.concat spans ++ post))
            (List.length (pre ++ [heading]))).
  { subst editor. unfold sectionDoc. cbn [List.concat app].
    rewrite <- !app_assoc. cbn [app]. f_equal.
    rewrite length_app. cbn [List.length]. lia. }
  assert (D : deleteReference editor
              = MkEditor (join [NL] (pre ++ heading :: d1
                                     :: List.concat spans ++ post))
                         (S (List.length pre))).
  { rewrite Ed. unfold deleteReference. cbn [cursorLine].
    rewrite getLine_middle; [|exact OA|apply Hh1|exact OB].
    rewrite header_on_reference by apply Hh1. cbn [negb].
    rewrite deleteRecord_lines; [|exact OA|apply Hh1|exact OB|discriminate].
    rewrite <- app_assoc. cbn [app]. f_equal.
    rewrite length_app. cbn [List.length]. lia. }
  split; [exact D|]. rewrite D.
  assert (C : closesRun (d1 :: List.concat spans ++ post)) by apply Hd1.
  destruct (@insertLine_section v pre heading
              (d1 :: List.concat spans ++ post) Hpre Hhd OB C []
              (S (List.length pre)) r (Forall_nil _) Hr) as [I _].
  unfold sectionDoc in I. cbn [List.concat app] in I.
  rewrite app_nil_r in I. exact I.
Qed.

Lemma delete_then_insert_witness :
  let editor := MkEditor (sectionDoc [utf16 "# Rust"] headingText
                            [[]; utf16 "Notes"]
                            ([introHeader; introDetail] :: []))
                         (S (List.length [utf16 "# Rust"])) in
  deleteReference editor
  = MkEditor (join [NL] ([utf16 "# Rust"] ++ headingText :: introDetail
                         :: List.concat [] ++ [[]; utf16 "Notes"]))
             (S (List.length [utf16 "# Rust"]))
  /\ insertLine noVault (deleteReference editor) rustBook
     = (MkEditor (join [NL] ([utf16 "# Rust"] ++ headingText
                             :: encodedLines noVault rustBook
                             ++ introDetail :: List.concat []
                             ++ [[]; utf16 "Notes"]))
                 (S (List.length [utf16 "# Rust"])), Ok tt).
Proof.
  refine (@delete_then_insert noVault [utf16 "# Rust"] headingText
            [[]; utf16 "Notes"] introHeader introDetail [] rustBook
            _ _ _ _ _ _ _).
  - repeat constructor; not_in_literal.
  - split; [not_in_literal|reflexivity].
  - repeat constructor; not_in_literal.
  - split; [reflexivity|not_in_literal].
  - split; [reflexivity|split; [vm_compute; discriminate|not_in_literal]].
  - constructor.
  - repeat split; try not_in_literal; vm_compute; discriminate.
Defined.

Lemma cycleRefStatus_span (A B : list jsstring) (h d : jsstring)
    (cur : nat) :
  Forall oneLine A -> oneLine h -> oneLine d -> Forall oneLine B ->
  onReferenceLine h = true -> ~ In BAR h -> onReferenceLine d = false ->
  cur = List.length A \/ cur = S (List.length A) ->
  cycleRefStatus (MkEditor (join [NL] (A ++ h :: d :: B)) cur)
  = Ok (MkEditor (join [NL] (A ++ h :: d :: B)) cur).
Proof.
  intros HA Oh Od HB Rh Bh Rd Hc.
  unfold cycleRefStatus. cbn [cursorLine].
  destruct Hc as [-> | ->].
  - rewrite getLine_middle;
      [|exact HA|exact Oh|constructor; [exact Od|exact HB]].
    rewrite Rh. cbn [negb].
    rewrite (@advanceStatus_no_bar _ Bh). cbn [bind].
    rewrite setLine_middle;
      [reflexivity|exact HA|exact Oh|constructor; [exact Od|exact HB]].
  - assert (G : getLine (MkEditor (join [NL] (A ++ h :: d :: B))
                                  (S (List.length A))) (S (List.length A))
                = d).
    { replace (A ++ h :: d :: B) with ((A ++ [h]) ++ d :: B)
        by (now rewrite <- app_assoc).
      replace (S (List.length A)) with (List.length (A ++ [h])) at 2
        by (rewrite length_app; cbn; lia).
      apply getLine_middle; [|exact Od|exact HB].
      apply Forall_app. split; [exact HA|now constructor]. }
    rewrite G, Rd. reflexivity.
Qed.

(** X21. [cycle-ref-status] does not reach the status of a record written
    by [buildLine] with a Markdown link or a bare title: with the cursor on
    the header, the line holds no bar and is written back as it is; with the
    cursor on the detail line, which holds the status, the command stops at
    its check for a reference line.  Either way the document is left as it
    is. *)
Theorem cycle_skips_built_record (v : vault) (A B : list jsstring)
    (r : ReferenceData) (cur : nat) :
  Forall oneLine A -> Forall oneLine B ->
  validRecord r -> notesLink v r = false -> linkSafe r ->
  cur = List.length A \/ cur = S (List.length A) ->
  exists h d,
    encodedLines v r = [h; d]
    /\ cycleRefStatus (MkEditor (join [NL] (A ++ h :: d :: B)) cur)
       = Ok (MkEditor (join [NL] (A ++ h :: d :: B)) cur).
Proof.
  intros HA HB Hv Hn Hs Hc.
  destruct (decode_built_header v Hv Hn Hs) as (h & Eb & Sh & Oh & Bh & _).
  set (d := detailLine (getTypeInfo (type r)) (getStatusInfo (status r))
                       (ratingGlyphs (stars r))) in *.
  assert (Dd : isDetail d)
    by apply (detailLine_isDetail (getTypeInfo_In _) (getStatusInfo_In _)
                (proj2 (proj2 Hv))).
  assert (Rd : onReferenceLine d = false)
    by apply (detail_off_reference (getTypeInfo_In _) (getStatusInfo_In _)
                (proj2 (proj2 Hv))).
  exists h, d. split.
  { unfold encodedLines. rewrite Eb, split_app, !split_free;
      [reflexivity|apply Dd|exact Oh]. }
  apply cycleRefStatus_span; try assumption; [apply Dd|].
  now apply header_on_reference.
Qed.

Lemma cycle_skips_built_record_witness :
  exists h d,
    encodedLines noVault introToRust = [h; d]
    /\ cycleRefStatus
         (MkEditor (join [NL] ([utf16 "## References"] ++ h :: d :: [[]])) 2)
       = Ok (MkEditor (join [NL] ([utf16 "## References"] ++ h :: d :: [[]]))
                      2).
Proof.
  refine (@cycle_skips_built_record noVault [utf16 "## References"] [[]]
            introToRust 2 _ _ _ _ _ _).
  - repeat constructor. not_in_literal.
  - repeat constructor. not_in_literal.
  - repeat split; try not_in_literal; vm_compute; discriminate.
  - reflexivity.
  - unfold linkSafe.
    repeat match goal with |- _ /\ _ => split end;
      try not_in_literal; try (intros _; discriminate).
    + split; reflexivity.
    + split; reflexivity.
    + vm_compute. repeat constructor.
  - right. reflexivity.
Defined.
